(** * Mack: markdown tokens to Slack BlockKit blocks

    A shallow embedding of the token walker of [src/parser/internal.ts]
    (functions [detectFileExtension], [extractFileName], [parsePlainText],
    [parseMrkdwn], [addMrkdwn], [parsePhrasingContent], [parseParagraph],
    [tokensToRichTextElements], [parseTableRowsToBlocks], [parseBlockquote],
    [parseHTML], [parseToken], [parseBlocks]) together with the properties
    the specification states about it.

    JavaScript strings are modelled as [string]; every string operation of
    the parser that is embedded here splits or matches on ASCII characters
    only, so that the byte view of a string and its code-unit view agree on
    them.  The module-level counter [recursionDepth] is threaded explicitly
    as the state of a small state-and-exception monad: a thrown exception
    keeps the state it was thrown in, exactly as a JavaScript [throw] keeps
    the assignments made before it. *)

From Stdlib Require Import String Ascii List Bool Arith ZArith Lia.
Import ListNotations.

Local Open Scope string_scope.
Local Open Scope list_scope.

(* ===================================================================== *)
(** ** Strings *)
(* ===================================================================== *)

Module Str.

(** [s.split(c)[0]]: the part of [s] before the first [c], all of [s] when
    [c] does not occur. *)
Fixpoint before (c : ascii) (s : string) : string :=
  match s with
  | EmptyString => EmptyString
  | String a r => if Ascii.eqb a c then EmptyString else String a (before c r)
  end.

Definition contains (c : ascii) (s : string) : bool :=
  existsb (Ascii.eqb c) (list_ascii_of_string s).

(** [s.split(c).pop()]: the part of [s] after the last [c], all of [s] when
    [c] does not occur. *)
Fixpoint after_last (c : ascii) (s : string) : string :=
  match s with
  | EmptyString => EmptyString
  | String a r =>
      if contains c r then after_last c r
      else if Ascii.eqb a c then r
      else s
  end.

Definition is_digit (a : ascii) : bool :=
  let n := nat_of_ascii a in (48 <=? n)%nat && (n <=? 57)%nat.

Definition is_upper (a : ascii) : bool :=
  let n := nat_of_ascii a in (65 <=? n)%nat && (n <=? 90)%nat.

Definition is_lower (a : ascii) : bool :=
  let n := nat_of_ascii a in (97 <=? n)%nat && (n <=? 122)%nat.

(** The character class [[a-zA-Z0-9]]. *)
Definition is_alnum (a : ascii) : bool :=
  is_lower a || is_upper a || is_digit a.

Fixpoint all_alnum (s : string) : bool :=
  match s with
  | EmptyString => true
  | String a r => is_alnum a && all_alnum r
  end.

(** [[a-zA-Z0-9]+$] anchored at the start of [s]. *)
Definition alnum_to_end (s : string) : bool :=
  match s with
  | EmptyString => false
  | String _ _ => all_alnum s
  end.

(** [s.match(/\.([a-zA-Z0-9]+)$/)]: the leftmost position at which a dot
    is followed by one or more alphanumerics up to the end of the input;
    the result is capture group 1. *)
Fixpoint match_extension (s : string) : option string :=
  match s with
  | EmptyString => None
  | String a r =>
      if Ascii.eqb a "." && alnum_to_end r then Some r
      else match_extension r
  end.

Definition lower_ascii (a : ascii) : ascii :=
  if is_upper a then ascii_of_nat (nat_of_ascii a + 32) else a.

(** [toLowerCase], on the ASCII letters (the only letters capture group 1
    can hold). *)
Fixpoint toLowerCase (s : string) : string :=
  match s with
  | EmptyString => EmptyString
  | String a r => String (lower_ascii a) (toLowerCase r)
  end.

(** [s.replace(/\n/g, r)]. *)
Fixpoint replace_newlines (r : string) (s : string) : string :=
  match s with
  | EmptyString => EmptyString
  | String a t =>
      if Ascii.eqb a "010" then (r ++ replace_newlines r t)%string
      else String a (replace_newlines r t)
  end.

(** [ss.join('')]. *)
Definition join (ss : list string) : string :=
  fold_right String.append EmptyString ss.

Definition is_empty (s : string) : bool :=
  match s with EmptyString => true | _ => false end.

(** [a || b] on strings: the empty string is falsy. *)
Definition or_else (a b : string) : string :=
  if is_empty a then b else a.

End Str.

(* ===================================================================== *)
(** ** State and exceptions *)
(* ===================================================================== *)

(** What the parser and its collaborators throw. *)
Inductive error : Type :=
| RecursionLimitError
| ValidationError
| ParseError.

Inductive result (A : Type) : Type :=
| Ok (a : A)
| Throw (e : error).
Arguments Ok {A} a.
Arguments Throw {A} e.

(** A computation over a mutable store [S]: it ends normally with a value or
    abruptly with an exception, and in both cases leaves a store behind. *)
Definition M (S A : Type) : Type := S -> result A * S.

Definition ret {S A} (a : A) : M S A := fun s => (Ok a, s).

Definition throw {S A} (e : error) : M S A := fun s => (Throw e, s).

Definition bind {S A B} (m : M S A) (k : A -> M S B) : M S B :=
  fun s =>
    match m s with
    | (Ok a, s') => k a s'
    | (Throw e, s') => (Throw e, s')
    end.

Definition get {S} : M S S := fun s => (Ok s, s).

Definition modify {S} (f : S -> S) : M S unit := fun s => (Ok tt, f s).

(** [try { body } finally { fin }]: [fin] runs on both exits. *)
Definition try_finally {S A} (body : M S A) (fin : S -> S) : M S A :=
  fun s => let (r, s') := body s in (r, fin s').

(** [try { body } catch (error) { handler }]. *)
Definition try_catch {S A} (body : M S A) (handler : error -> M S A) : M S A :=
  fun s =>
    match body s with
    | (Ok a, s') => (Ok a, s')
    | (Throw e, s') => handler e s'
    end.

(** A pure call that may throw. *)
Definition lift {S A} (r : result A) : M S A := fun s => (r, s).

Declare Scope monad_scope.
Delimit Scope monad_scope with monad.
Notation "x <- m ;; k" := (bind m (fun x => k))
  (at level 100, m at next level, right associativity) : monad_scope.
Notation "m ;;; k" := (bind m (fun _ => k))
  (at level 100, right associativity) : monad_scope.
Local Open Scope monad_scope.

Section Traverse.
Context {S A B : Type} (f : A -> M S B).

(** [xs.map(f)] for an [f] with effects: left to right, the first throw
    ends the traversal. *)
Fixpoint mapM (xs : list A) : M S (list B) :=
  match xs with
  | [] => ret []
  | x :: r => y <- f x ;; ys <- mapM r ;; ret (y :: ys)
  end.
End Traverse.

(** [xs.map(f)] for an [f] that may throw and has no other effect. *)
Fixpoint map_result {A B} (f : A -> result B) (xs : list A)
  : result (list B) :=
  match xs with
  | [] => Ok []
  | x :: r =>
      match f x with
      | Throw e => Throw e
      | Ok y =>
          match map_result f r with
          | Throw e => Throw e
          | Ok ys => Ok (y :: ys)
          end
      end
  end.

Section FlatTraverse.
Context {S A B : Type} (f : A -> M S (list B)).

(** [xs.flatMap(f)] for an [f] that returns arrays. *)
Fixpoint flatMapM (xs : list A) : M S (list B) :=
  match xs with
  | [] => ret []
  | x :: r => ys <- f x ;; zs <- flatMapM r ;; ret (ys ++ zs)
  end.
End FlatTraverse.

(* ===================================================================== *)
(** ** Tokens *)
(* ===================================================================== *)

(** [PhrasingToken]: the inline tokens of marked, with the fields the parser
    reads. *)
#[local] Set Warnings "-register-all".
Inductive token : Type :=
| Link (href : string) (text : string) (tokens : list token)
| Em (text : string) (tokens : list token)
| Strong (text : string) (tokens : list token)
| Del (text : string) (tokens : list token)
| Br
| Image (href : string) (title : option string) (text : string)
| Codespan (raw : string) (text : string)
| Text (raw : string) (text : string)
| HTML (raw : string) (text : string).

Section TokenInd.
Variable P : token -> Prop.
Hypothesis HLink : forall href text tokens,
    Forall P tokens -> P (Link href text tokens).
Hypothesis HEm : forall text tokens, Forall P tokens -> P (Em text tokens).
Hypothesis HStrong : forall text tokens,
    Forall P tokens -> P (Strong text tokens).
Hypothesis HDel : forall text tokens, Forall P tokens -> P (Del text tokens).
Hypothesis HBr : P Br.
Hypothesis HImage : forall href title text, P (Image href title text).
Hypothesis HCodespan : forall raw text, P (Codespan raw text).
Hypothesis HText : forall raw text, P (Text raw text).
Hypothesis HHTML : forall raw text, P (HTML raw text).

(** Induction over a token and, through [Forall], its children. *)
Fixpoint token_nested_ind (t : token) : P t :=
  let fix children (ts : list token) : Forall P ts :=
    match ts with
    | [] => Forall_nil P
    | x :: r => Forall_cons x (token_nested_ind x) (children r)
    end in
  match t with
  | Link href text tokens => HLink href text tokens (children tokens)
  | Em text tokens => HEm text tokens (children tokens)
  | Strong text tokens => HStrong text tokens (children tokens)
  | Del text tokens => HDel text tokens (children tokens)
  | Br => HBr
  | Image href title text => HImage href title text
  | Codespan raw text => HCodespan raw text
  | Text raw text => HText raw text
  | HTML raw text => HHTML raw text
  end.
End TokenInd.

(** The [text] field of a token; a line break has none. *)
Definition token_text (t : token) : option string :=
  match t with
  | Link _ text _ | Em text _ | Strong text _ | Del text _
  | Image _ _ text | Codespan _ text | Text _ text | HTML _ text => Some text
  | Br => None
  end.

(** The number of nested [parseMrkdwn] activations a token causes: one for
    the token, plus those of the deepest child of a link, emphasis, strong
    or strike token (the only kinds whose children are rendered). *)
Fixpoint nesting (t : token) : nat :=
  match t with
  | Link _ _ tokens | Em _ tokens | Strong _ tokens | Del _ tokens =>
      S (list_max (map nesting tokens))
  | _ => 1
  end.

(* ===================================================================== *)
(** ** Blocks *)
(* ===================================================================== *)

Inductive text_style : Type := Bold | Italic | Strike | CodeStyle.

(** [RichTextSectionElement]: [{type:'text', text, style?}] or
    [{type:'link', text, url}]. *)
Inductive rich_text_section_element : Type :=
| RichText (text : string) (style : option text_style)
| RichLink (text : string) (url : string).

(** [{type:'rich_text_section', elements}]. *)
Inductive rich_text_element : Type :=
| RichTextSection (elements : list rich_text_section_element).

Inductive list_style : Type := Bullet | Ordered.

Inductive rich_text_container : Type :=
| RichTextList (style : list_style) (indent : nat)
    (items : list rich_text_element)
| RichTextQuote (elements : list rich_text_section_element)
| RichTextPreformatted (elements : list rich_text_section_element).

Inductive table_cell : Type :=
| RawTextCell (text : string)
| RichTextCell (elements : list rich_text_element).

Inductive alignment : Type := AlignLeft | AlignCenter | AlignRight.

(** [ColumnSetting]: [{align?: 'center' | 'right'}]; [{}] is [None]. *)
Definition column_setting : Type := option alignment.

Record video_fields : Type := mkVideo {
  videoUrl : string;
  thumbnailUrl : string;
  video_title : string;
  altText : string;
  description : option string
}.

(** The blocks of the target schema. *)
Inductive block : Type :=
| SectionBlock (text : string)
| HeaderBlock (text : string)
| DividerBlock
| ImageBlock (image_url alt_text : string) (title : option string)
| FileBlock (external_id : string)
| VideoBlock (fields : video_fields)
| TableBlock (rows : list (list table_cell))
    (column_settings : option (list column_setting))
| RichTextBlock (elements : list rich_text_container).

Definition isSectionBlock (b : block) : bool :=
  match b with SectionBlock _ => true | _ => false end.

Definition isFileBlock (b : block) : bool :=
  match b with FileBlock _ => true | _ => false end.

(* ===================================================================== *)
(** ** Collaborators *)
(* ===================================================================== *)

(** An image tag of a parsed markup island, with its [src] and [alt]
    attributes when present. *)
Record img_tag : Type := mkImg {
  img_src : option string;
  img_alt : option string
}.

(** A video tag of a parsed markup island. *)
Record video_tag : Type := mkVid {
  vid_src : option string;
  vid_poster : option string;
  vid_title : option string;
  vid_alt : option string
}.

(** What [parser.parse(element.raw)] returns, as far as [parseHTML] reads it:
    the [table] entry, and the [img] and [video] entries as lists (the
    parser reads a single tag as a one-element array, and skips an absent
    entry as it would an empty array). *)
Record xml_document (xml_table : Type) : Type := mkDoc {
  doc_table : option xml_table;
  doc_img : list img_tag;
  doc_video : list video_tag
}.
Arguments mkDoc {xml_table}.
Arguments doc_table {xml_table}.
Arguments doc_img {xml_table}.
Arguments doc_video {xml_table}.

(** The code the parser imports from [../validation], [../slack] and
    [fast-xml-parser].  None of it is part of the sources embedded here, so
    the parser is defined over an arbitrary choice of it.  A builder that
    can reject its arguments returns a [result].  [parseHtmlTable] belongs
    to the parser itself; it wraps its whole body in [try]/[catch], returns
    a table block or [null], and reads and writes no shared state, which is
    all that the functions embedded here depend on. *)
Record collaborators : Type := mkCollaborators {
  maxDepth : Z;
  validateUrl : string -> bool;
  safeTruncate : string -> nat -> string;
  image : string -> string -> option string -> result block;
  file : string -> result block;
  video : video_fields -> result block;
  richTextList : list rich_text_element -> list_style -> nat -> result block;
  richTextCode : string -> result block;
  table : list (list table_cell) -> option (list column_setting) ->
          result block;
  xml_table : Type;
  xmlParse : string -> result (xml_document xml_table);
  parseHtmlTable : xml_table -> option block
}.

Module Slack.

(** Modelled from the spec: [section] of [src/slack.ts], which is not among
    the sources.  "Each constructor is responsible for field-level
    truncation to the platform ceilings (Section text: 3000 chars ...)";
    it fails only on an argument that is not a string. *)
Definition section (env : collaborators) (text : string) : block :=
  SectionBlock (safeTruncate env text 3000).

(** Modelled from the spec: [header] of [src/slack.ts], which is not among
    the sources.  "Header text: 150 chars"; it fails only on an argument
    that is not a string. *)
Definition header (env : collaborators) (text : string) : block :=
  HeaderBlock (safeTruncate env text 150).

(** Modelled from the spec: [divider] of [src/slack.ts], which is not among
    the sources.  "Divider (no fields)". *)
Definition divider : block := DividerBlock.

(** Modelled from the spec: [richTextQuote] of [src/slack.ts], which is not
    among the sources.  A RichText block that wraps one quote element. *)
Definition richTextQuote (elements : list rich_text_section_element) : block :=
  RichTextBlock [RichTextQuote elements].

(** Modelled from the spec: [file] of [src/slack.ts], which is not among the
    sources.  "File (an external identifier derived from a link)";
    "Constructors fail with a validation error on ... empty-required inputs
    (e.g. ... empty file identifier ...)". *)
Definition file (external_id : string) : result block :=
  if Str.is_empty external_id then Throw ValidationError
  else Ok (FileBlock external_id).

End Slack.

Module Validation.

(** Modelled from the spec: [validateRecursionDepth] of [src/validation.ts],
    which is not among the sources.  "exceeding a fixed nesting ceiling
    fails fast with a recursion-limit error". *)
Definition validateRecursionDepth (env : collaborators) (depth : Z)
  : result unit :=
  if (maxDepth env <? depth)%Z then Throw RecursionLimitError else Ok tt.

End Validation.

(* ===================================================================== *)
(** ** The file-link classifier *)
(* ===================================================================== *)

Definition FILE_EXTENSIONS : list string :=
  [ "pdf"; "doc"; "docx"; "xls"; "xlsx"; "ppt"; "pptx"; "zip"; "rar"; "7z";
    "tar"; "gz"; "txt"; "csv"; "json"; "xml"; "jpg"; "jpeg"; "png"; "gif";
    "bmp"; "svg" ].

(** [href.split('?')[0].split('#')[0]]. *)
Definition pathname (href : string) : string :=
  Str.before "#" (Str.before "?" href).

Definition detectFileExtension (href : string) : option string :=
  match Str.match_extension (pathname href) with
  | Some ext => Some (Str.toLowerCase ext)
  | None => None
  end.

Definition isFileType (extension : option string) : bool :=
  match extension with
  | Some e => existsb (String.eqb e) FILE_EXTENSIONS
  | None => false
  end.

Definition extractFileName (href : string) : string :=
  Str.or_else (Str.after_last "/" (pathname href)) "Document".

(* ===================================================================== *)
(** ** Inline content *)
(* ===================================================================== *)

Fixpoint parsePlainText (element : token) : list string :=
  match element with
  | Link _ _ tokens | Em _ tokens | Strong _ tokens | Del _ tokens =>
      flat_map parsePlainText tokens
  | Br => []
  | Image href title _ =>
      [match title with Some t => t | None => href end]
  | Codespan raw _ | Text raw _ | HTML raw _ => [raw]
  end.

(** [element.href && validateUrl(element.href) ? element.href : ''] is a
    non-empty string. *)
Definition validHref (env : collaborators) (href : string) : bool :=
  negb (Str.is_empty href) && validateUrl env href.

Section Inline.
Variable env : collaborators.

(** The store is the module-level [recursionDepth]. *)
Fixpoint parseMrkdwn (element : token) : M Z string :=
  modify Z.succ ;;;
  try_finally
    (recursionDepth <- get ;;
     lift (Validation.validateRecursionDepth env recursionDepth) ;;;
     match element with
     | Link href _ tokens =>
         if validHref env href then
           children <- mapM parseMrkdwn tokens ;;
           ret ("<" ++ href ++ "|" ++ Str.join children ++ "> ")%string
         else
           children <- mapM parseMrkdwn tokens ;;
           ret (Str.join children)
     | Em _ tokens =>
         children <- mapM parseMrkdwn tokens ;;
         ret ("_" ++ Str.join children ++ "_")%string
     | Codespan _ text => ret ("`" ++ text ++ "`")%string
     | Strong _ tokens =>
         children <- mapM parseMrkdwn tokens ;;
         ret ("*" ++ Str.join children ++ "*")%string
     | Text _ text => ret text
     | Del _ tokens =>
         children <- mapM parseMrkdwn tokens ;;
         ret ("~" ++ Str.join children ++ "~")%string
     | _ => ret ""
     end)
    Z.pred.

End Inline.

(** The store of the accumulation step: the in-progress output list, which
    the step mutates in place, and the module-level [recursionDepth]. *)
Definition acc_store : Type := (list block * Z)%type.

(** Runs a computation that only touches [recursionDepth]. *)
Definition on_depth {A} (m : M Z A) : M acc_store A :=
  fun '(accumulator, d) => let (r, d') := m d in (r, (accumulator, d')).

(** [accumulator.push(b)]. *)
Definition push (b : block) : M acc_store unit :=
  fun '(accumulator, d) => (Ok tt, (accumulator ++ [b], d)).

(** [accumulator[accumulator.length - 1]]. *)
Definition last_block (accumulator : list block) : option block :=
  match accumulator with
  | [] => None
  | _ :: _ => nth_error accumulator (length accumulator - 1)
  end.

(** The assignment [last.text.text += content] on the last element. *)
Definition set_last (accumulator : list block) (b : block) : list block :=
  firstn (length accumulator - 1) accumulator ++ [b].

Section Accumulate.
Variable env : collaborators.

Definition addMrkdwn (content : string) : M acc_store unit :=
  fun '(accumulator, d) =>
    match last_block accumulator with
    | Some (SectionBlock text) =>
        (Ok tt, (set_last accumulator (SectionBlock (text ++ content)), d))
    | _ => push (Slack.section env content) (accumulator, d)
    end.

Definition parsePhrasingContent (element : token) : M acc_store unit :=
  match element with
  | Image href title text =>
      try_catch
        (imageBlock <-
           lift (image env href
                   (Str.or_else text
                      (match title with
                       | Some t => Str.or_else t href
                       | None => href
                       end))
                   title) ;;
         push imageBlock)
        (fun _ => ret tt)
  | Link href _ tokens =>
      let linkText := Str.join (flat_map parsePlainText tokens) in
      let urlExtension := detectFileExtension href in
      let textExtension := detectFileExtension linkText in
      let fileExtension :=
        match urlExtension with
        | Some e => Some e
        | None => textExtension
        end in
      if isFileType fileExtension then
        try_catch
          (let fileName :=
             match textExtension with
             | Some _ => extractFileName linkText
             | None => extractFileName href
             end in
           fileBlock <- lift (file env fileName) ;;
           push fileBlock)
          (fun _ =>
             text <- on_depth (parseMrkdwn env element) ;;
             addMrkdwn text)
      else
        text <- on_depth (parseMrkdwn env element) ;;
        addMrkdwn text
  | _ =>
      text <- on_depth (parseMrkdwn env element) ;;
      addMrkdwn text
  end.

(** [tokens.reduce((accumulator, child) => { parsePhrasingContent(child,
    accumulator); return accumulator; }, ...)]. *)
Fixpoint reduce_phrasing (tokens : list token) : M acc_store unit :=
  match tokens with
  | [] => ret tt
  | child :: rest => parsePhrasingContent child ;;; reduce_phrasing rest
  end.

(** The accumulator is a fresh array, returned when the walk ends
    normally. *)
Definition parseParagraph (tokens : list token) : M Z (list block) :=
  fun d =>
    match reduce_phrasing tokens ([], d) with
    | (Ok _, (accumulator, d')) => (Ok accumulator, d')
    | (Throw e, (_, d')) => (Throw e, d')
    end.

End Accumulate.

(* ===================================================================== *)
(** ** Rich elements, lists and tables *)
(* ===================================================================== *)

(** [(t as marked.Tokens.Text).text || '']. *)
Definition text_or_empty (t : token) : string :=
  match token_text t with
  | Some s => s
  | None => ""
  end.

Definition children_text (tokens : list token) : string :=
  Str.join (map text_or_empty tokens).

Section RichElements.
Variable env : collaborators.

(** The body of the loop of [tokensToRichTextElements]: what one token
    pushes. *)
Definition tokenToRichTextElements (t : token)
  : list rich_text_section_element :=
  match t with
  | Text _ text => [RichText text None]
  | Strong _ tokens => [RichText (children_text tokens) (Some Bold)]
  | Em _ tokens => [RichText (children_text tokens) (Some Italic)]
  | Del _ tokens => [RichText (children_text tokens) (Some Strike)]
  | Codespan _ text => [RichText text (Some CodeStyle)]
  | Link href _ tokens =>
      if validateUrl env href then [RichLink (children_text tokens) href]
      else [RichText (children_text tokens) None]
  | Image _ title text =>
      [RichText
         (Str.or_else text
            (match title with
             | Some t => Str.or_else t "[image]"
             | None => "[image]"
             end))
         None]
  | HTML _ text => [RichText text None]
  | Br => []
  end.

Definition tokensToRichTextElements (tokens : list token)
  : list rich_text_section_element :=
  flat_map tokenToRichTextElements tokens.

End RichElements.

(** [marked.Tokens.TableCell]. *)
Record cell_token : Type := mkCell {
  cell_text : string;
  cell_tokens : list token
}.

Definition isComplexFormatting (t : token) : bool :=
  match t with
  | Strong _ _ | Em _ _ | Del _ _ | Link _ _ _ | Codespan _ _ => true
  | _ => false
  end.

Section Tables.
Variable env : collaborators.

Definition parseTableCellToBlock (cell : cell_token) : table_cell :=
  if existsb isComplexFormatting (cell_tokens cell) then
    RichTextCell
      [RichTextSection (tokensToRichTextElements env (cell_tokens cell))]
  else
    RawTextCell (Str.join (map text_or_empty (cell_tokens cell))).

(** One turn of the loop that fills [columnSettings]. *)
Definition columnSettingsStep (columnSettings : list column_setting)
    (a : option alignment) : list column_setting :=
  match a with
  | Some AlignCenter => columnSettings ++ [Some AlignCenter]
  | Some AlignRight => columnSettings ++ [Some AlignRight]
  | Some AlignLeft | None =>
      if (0 <? length columnSettings)%nat then columnSettings ++ [None]
      else columnSettings
  end.

(** [for (let i = 0; i < align.length && i < 20; i++)]. *)
Definition columnSettingsOf (align : list (option alignment))
  : list column_setting :=
  fold_left columnSettingsStep (firstn 20 align) [].

Definition parseTableRowsToBlocks (header : list cell_token)
    (rows : list (list cell_token)) (align : list (option alignment))
  : list (list table_cell) * list column_setting :=
  let headerRow := map parseTableCellToBlock header in
  let tableRows := [headerRow] ++ map (map parseTableCellToBlock) rows in
  (tableRows, columnSettingsOf align).

Definition parseTable (header : list cell_token)
    (rows : list (list cell_token)) (align : list (option alignment))
  : result block :=
  let '(tableRows, columnSettings) :=
    parseTableRowsToBlocks header rows align in
  table env tableRows
    (if (0 <? length columnSettings)%nat then Some columnSettings else None).

End Tables.

(* ===================================================================== *)
(** ** Block-level tokens *)
(* ===================================================================== *)

(** [marked.Tokens.ListItem], over the type of its child tokens. *)
Record list_item (T : Type) : Type := mkItem {
  task : bool;
  checked : option bool;
  item_tokens : list T
}.
Arguments mkItem {T}.
Arguments task {T}.
Arguments checked {T}.
Arguments item_tokens {T}.

(** [marked.Token] at block level.  [TextBlock] is a bare text token, whose
    [tokens] field is optional; [Space] stands for every kind the router
    skips. *)
Inductive block_token : Type :=
| Heading (tokens : list token)
| Paragraph (tokens : list token)
| Code (text : string)
| Blockquote (tokens : list block_token)
| ListToken (ordered : bool) (items : list (list_item block_token))
| Table (header : list cell_token) (rows : list (list cell_token))
    (align : list (option alignment))
| Hr
| HtmlBlock (raw : string)
| TextBlock (text : string) (tokens : option (list token))
| Space.

(** [ListOptions] and [ParsingOptions]. *)
Record ListOptions : Type := mkListOptions {
  checkboxPrefix : option (bool -> string)
}.

Record ParsingOptions : Type := mkOptions {
  lists : option ListOptions
}.

Definition defaultCheckboxPrefix (checked : bool) : string :=
  if checked then "✅ " else "☐ ".

Section Blocks.
Variable env : collaborators.

Definition parseHeading (tokens : list token) : block :=
  Slack.header env (Str.join (flat_map parsePlainText tokens)).

Definition parseCode (text : string) : result block :=
  richTextCode env text.

(** What one child token of a list item pushes onto [itemElements]. *)
Definition listItemTokenElements (t : block_token)
  : list rich_text_section_element :=
  match t with
  | Paragraph tokens | TextBlock _ (Some tokens) =>
      match tokens with
      | [] => []
      | _ :: _ => tokensToRichTextElements env tokens
      end
  | Code text => [RichText (String "010" text ++ String "010" "") (Some CodeStyle)]
  | _ => []
  end.

Definition parseListItem (prefix : bool -> string)
    (item : list_item block_token) : rich_text_element :=
  RichTextSection
    ((if task item
      then [RichText
              (prefix (match checked item with Some c => c | None => false end))
              None]
      else [])
     ++ flat_map listItemTokenElements (item_tokens item)).

Definition parseList (ordered : bool) (items : list (list_item block_token))
    (options : option ListOptions) (indent : nat) : result block :=
  let checkboxPrefix :=
    match options with
    | Some (mkListOptions (Some f)) => f
    | _ => defaultCheckboxPrefix
    end in
  richTextList env (map (parseListItem checkboxPrefix) items)
    (if ordered then Ordered else Bullet) indent.

End Blocks.

(* ===================================================================== *)
(** ** Embedded markup *)
(* ===================================================================== *)

Definition option_to_list {A} (o : option A) : list A :=
  match o with
  | Some a => [a]
  | None => []
  end.

(** [x || d] for an attribute that may be absent. *)
Definition attr_or (x : option string) (d : string) : string :=
  match x with
  | Some s => Str.or_else s d
  | None => d
  end.

Section Html.
Variable env : collaborators.

(** The callback of [tags.map] over the image tags: [null] for a tag whose
    URL does not validate (an absent [src] is no URL). *)
Definition htmlImage (img : img_tag) : result (option block) :=
  match img_src img with
  | None => Ok None
  | Some url =>
      if negb (validateUrl env url) then Ok None
      else
        match image env url (attr_or (img_alt img) url) None with
        | Ok b => Ok (Some b)
        | Throw e => Throw e
        end
  end.

(** The argument of [video(...)] for a video tag. *)
Definition htmlVideoFields (vid : video_tag) : video_fields :=
  let videoUrl := attr_or (vid_src vid) "" in
  let posterUrl := attr_or (vid_poster vid) "" in
  let title := attr_or (vid_title vid) "Video" in
  let altText := attr_or (vid_alt vid) title in
  mkVideo videoUrl (Str.or_else posterUrl videoUrl) title altText None.

(** The callback of [tags.map] over the video tags; the builder's failure is
    caught inside it. *)
Definition htmlVideo (vid : video_tag) : option block :=
  let videoUrl := attr_or (vid_src vid) "" in
  let posterUrl := attr_or (vid_poster vid) "" in
  let title := attr_or (vid_title vid) "Video" in
  let altText := attr_or (vid_alt vid) title in
  if Str.is_empty videoUrl || negb (validateUrl env videoUrl) then None
  else if negb (Str.is_empty posterUrl) && negb (validateUrl env posterUrl)
  then None
  else
    match video env (htmlVideoFields vid) with
    | Ok b => Some b
    | Throw _ => None
    end.

(** The body of the [try] of [parseHTML], after the island is parsed. *)
Definition htmlBlocks (res : xml_document (xml_table env))
  : result (list block) :=
  let tableBlocks :=
    match doc_table res with
    | Some t => option_to_list (parseHtmlTable env t)
    | None => []
    end in
  match map_result htmlImage (doc_img res) with
  | Throw e => Throw e
  | Ok images =>
      Ok (tableBlocks
          ++ flat_map option_to_list images
          ++ flat_map option_to_list (map htmlVideo (doc_video res)))
  end.

Definition parseHTML {S} (raw : string) : M S (list block) :=
  try_catch
    (res <- lift (xmlParse env raw) ;;
     lift (htmlBlocks res))
    (fun _ => ret []).

End Html.

(* ===================================================================== *)
(** ** Blockquotes and the router *)
(* ===================================================================== *)

Definition isParagraphOrText (t : block_token) : bool :=
  match t with
  | Paragraph _ | TextBlock _ _ => true
  | _ => false
  end.

(** [block.text.text = '> ' + block.text.text.replace(/\n/g, '\n> ')] on a
    section with a non-empty text; every other block is returned as it
    is. *)
Definition quoteSection (b : block) : block :=
  match b with
  | SectionBlock text =>
      if Str.is_empty text then b
      else SectionBlock ("> " ++ Str.replace_newlines (String "010" "> ") text)
  | _ => b
  end.

Section Router.
Variable env : collaborators.

(** The loop that fills [quoteElements].  The tokens of the array are
    distinct objects, so that [element.tokens.indexOf(token)] is the
    position of [token], and it is below [element.tokens.length - 1] when
    tokens follow. *)
Fixpoint quoteElementsOf (tokens : list block_token)
  : list rich_text_section_element :=
  match tokens with
  | [] => []
  | token :: rest =>
      (match token with
       | Paragraph [] => []
       | Paragraph ((_ :: _) as ts) =>
           tokensToRichTextElements env ts
           ++ (match rest with
               | [] => []
               | _ :: _ => [RichText (String "010" "") None]
               end)
       | TextBlock _ (Some ((_ :: _) as ts)) => tokensToRichTextElements env ts
       | TextBlock text _ => [RichText text None]
       | _ => []
       end) ++ quoteElementsOf rest
  end.

(** The trial parse: [testBlocks]. *)
Definition trialParse (tokens : list block_token) : M Z (list block) :=
  flatMapM
    (fun token =>
       match token with
       | Paragraph ts => parseParagraph env ts
       | _ => ret []
       end)
    tokens.

(** The first part of [parseBlockquote]: [Some blocks] when it returns
    [blocks], [None] when control falls through to the complex handling. *)
Definition parseSimpleBlockquote (tokens : list block_token)
  : M Z (option (list block)) :=
  if forallb isParagraphOrText tokens then
    testBlocks <- trialParse tokens ;;
    if existsb isFileBlock testBlocks then ret None
    else
      let quoteElements := quoteElementsOf tokens in
      if (0 <? length quoteElements)%nat
      then ret (Some [Slack.richTextQuote quoteElements])
      else ret (Some [])
  else ret None.

Fixpoint parseBlockquote (element : block_token) : M Z (list block) :=
  match element with
  | Blockquote tokens =>
      simple <- parseSimpleBlockquote tokens ;;
      match simple with
      | Some blocks => ret blocks
      | None =>
          blocks <-
            flatMapM
              (fun token =>
                 match token with
                 | Paragraph ts => parseParagraph env ts
                 | ListToken ordered items =>
                     b <- lift (parseList env ordered items None 0) ;; ret [b]
                 | Code text => b <- lift (parseCode env text) ;; ret [b]
                 | Blockquote _ => parseBlockquote token
                 | Heading ts => ret [parseHeading env ts]
                 | HtmlBlock raw => parseHTML env raw
                 | _ => ret []
                 end)
              tokens ;;
          ret (map quoteSection blocks)
      end
  | _ => ret []
  end.

Definition parseThematicBreak : block := Slack.divider.

Definition parseToken (token : block_token) (options : ParsingOptions)
  : M Z (list block) :=
  match token with
  | Heading ts => ret [parseHeading env ts]
  | Paragraph ts => parseParagraph env ts
  | Code text => b <- lift (parseCode env text) ;; ret [b]
  | Blockquote _ => parseBlockquote token
  | ListToken ordered items =>
      b <- lift (parseList env ordered items (lists options) 0) ;; ret [b]
  | Table header rows align =>
      b <- lift (parseTable env header rows align) ;; ret [b]
  | Hr => ret [parseThematicBreak]
  | HtmlBlock raw => parseHTML env raw
  | _ => ret []
  end.

Definition parseBlocks (tokens : list block_token) (options : ParsingOptions)
  : M Z (list block) :=
  flatMapM (fun token => parseToken token options) tokens.

End Router.

(* ===================================================================== *)
(** ** The phrase renderer as the specification words it *)
(* ===================================================================== *)

(** The markup of the specification's phrase renderer, written as a pure
    function of the token: link to [<url|text> ] (the children joined,
    unwrapped, when the URL is invalid), emphasis to [_text_], strong to
    [*text*], strike to [~text~], code span to the verbatim text between
    backticks, plain text verbatim.  It has no counter and no ceiling. *)
Fixpoint spec_render (env : collaborators) (t : token) : string :=
  match t with
  | Link href _ tokens =>
      if validHref env href
      then "<" ++ href ++ "|" ++ Str.join (map (spec_render env) tokens) ++ "> "
      else Str.join (map (spec_render env) tokens)
  | Em _ tokens => "_" ++ Str.join (map (spec_render env) tokens) ++ "_"
  | Strong _ tokens => "*" ++ Str.join (map (spec_render env) tokens) ++ "*"
  | Del _ tokens => "~" ++ Str.join (map (spec_render env) tokens) ++ "~"
  | Codespan _ text => "`" ++ text ++ "`"
  | Text _ text => text
  | Br | Image _ _ _ | HTML _ _ => ""
  end.

(** What a call of [parseMrkdwn] made at counter value [d] ends with. *)
Definition mrkdwn_outcome (env : collaborators) (t : token) (d : Z)
  : result string :=
  if (maxDepth env <? d + Z.of_nat (nesting t))%Z
  then Throw RecursionLimitError
  else Ok (spec_render env t).


(* ===================================================================== *)
(** ** Definitions used to state the properties *)
(* ===================================================================== *)

Section BlockTokenInd.
Variable P : block_token -> Prop.
Hypothesis HHeading : forall tokens, P (Heading tokens).
Hypothesis HParagraph : forall tokens, P (Paragraph tokens).
Hypothesis HCode : forall text, P (Code text).
Hypothesis HBlockquote : forall tokens, Forall P tokens -> P (Blockquote tokens).
Hypothesis HList : forall ordered items, P (ListToken ordered items).
Hypothesis HTable : forall header rows align, P (Table header rows align).
Hypothesis HHr : P Hr.
Hypothesis HHtml : forall raw, P (HtmlBlock raw).
Hypothesis HTextBlock : forall text tokens, P (TextBlock text tokens).
Hypothesis HSpace : P Space.

(** Induction over a block token and the children of a blockquote. *)
Fixpoint block_token_nested_ind (t : block_token) : P t :=
  let fix children (ts : list block_token) : Forall P ts :=
    match ts with
    | [] => Forall_nil P
    | x :: r => Forall_cons x (block_token_nested_ind x) (children r)
    end in
  match t with
  | Heading tokens => HHeading tokens
  | Paragraph tokens => HParagraph tokens
  | Code text => HCode text
  | Blockquote tokens => HBlockquote tokens (children tokens)
  | ListToken ordered items => HList ordered items
  | Table header rows align => HTable header rows align
  | Hr => HHr
  | HtmlBlock raw => HHtml raw
  | TextBlock text tokens => HTextBlock text tokens
  | Space => HSpace
  end.
End BlockTokenInd.

Section AccumulationEffects.
Variable env : collaborators.

(** Rendering a token and handing the text to [addMrkdwn]. *)
Definition render_and_add (element : token) : M acc_store unit :=
  text <- on_depth (parseMrkdwn env element) ;; addMrkdwn env text.

(** What [addMrkdwn] leaves in the list. *)
Definition added (content : string) (accumulator : list block) : list block :=
  match last_block accumulator with
  | Some (SectionBlock text) =>
      set_last accumulator (SectionBlock (text ++ content))
  | _ => accumulator ++ [Slack.section env content]
  end.

End AccumulationEffects.

(** The three things a call of the accumulation step can have done to the
    list: nothing, a push at the end, or an append to the text of a section
    that is its last element. *)
Inductive step_effect (accumulator : list block) : list block -> Prop :=
| effect_none : step_effect accumulator accumulator
| effect_push b : step_effect accumulator (accumulator ++ [b])
| effect_append text content :
    last_block accumulator = Some (SectionBlock text) ->
    step_effect accumulator
      (set_last accumulator (SectionBlock (text ++ content))).

(** The three local values of the link branch of [parsePhrasingContent]:
    [linkText], [fileExtension] and [fileName]. *)
Definition linkTextOf (tokens : list token) : string :=
  Str.join (flat_map parsePlainText tokens).

Definition fileExtensionOf (href : string) (tokens : list token)
  : option string :=
  match detectFileExtension href with
  | Some e => Some e
  | None => detectFileExtension (linkTextOf tokens)
  end.

Definition fileNameOf (href : string) (tokens : list token) : string :=
  match detectFileExtension (linkTextOf tokens) with
  | Some _ => extractFileName (linkTextOf tokens)
  | None => extractFileName href
  end.

(** A computation that ends, normally or not, in the store it started
    in. *)
Definition keeps_store {S A} (m : M S A) : Prop := forall s, snd (m s) = s.

(** What may follow the path in a URL: nothing, a query string or a
    fragment. *)
Definition is_query_or_fragment (tail : string) : bool :=
  match tail with
  | EmptyString => true
  | String c _ => Ascii.eqb c "?" || Ascii.eqb c "#"
  end.

(** The kinds of inline token the merge property speaks of. *)
Definition isTextEmStrong (t : token) : bool :=
  match t with
  | Text _ _ | Em _ _ | Strong _ _ => true
  | _ => false
  end.

(** The per-child dispatch of the complex handling of [parseBlockquote]:
    the value of [blocks] before the quote formatting is applied. *)
Definition quoteChildBlocks (env : collaborators)
    (tokens : list block_token) : M Z (list block) :=
  flatMapM
    (fun token =>
       match token with
       | Paragraph ts => parseParagraph env ts
       | ListToken ordered items =>
           b <- lift (parseList env ordered items None 0) ;; ret [b]
       | Code text => b <- lift (parseCode env text) ;; ret [b]
       | Blockquote _ => parseBlockquote env token
       | Heading ts => ret [parseHeading env ts]
       | HtmlBlock raw => parseHTML env raw
       | _ => ret []
       end)
    tokens.

(** The quote formatting as the specification words it, between a block of
    the per-child sequence and the block returned for it: the text of a
    section is prefixed with ["> "] and each of its newlines replaced by a
    newline followed by ["> "]; a block that is not a section is returned
    unmodified.  [quoted_empty] is the case the specification does not
    mention, a section whose text is empty. *)
Inductive quoted : block -> block -> Prop :=
| quoted_section text :
    text <> "" ->
    quoted (SectionBlock text)
      (SectionBlock ("> " ++ Str.replace_newlines (String "010" "> ") text))
| quoted_empty : quoted (SectionBlock "") (SectionBlock "")
| quoted_other b : isSectionBlock b = false -> quoted b b.

(** The counter after a sequence of invocations of [parseBlocks], each with
    its own token tree and options, whatever each of them returned or
    threw. *)
Fixpoint after_invocations (env : collaborators)
    (history : list (list block_token * ParsingOptions)) (d : Z) : Z :=
  match history with
  | [] => d
  | (tokens, options) :: rest =>
      after_invocations env rest (snd (parseBlocks env tokens options d))
  end.

(** [n] emphasis tokens around a text token. *)
Fixpoint nested_em (n : nat) : token :=
  match n with
  | O => Text "x" "x"
  | S k => Em "x" [nested_em k]
  end.

(* ===================================================================== *)
(** ** A sample choice of collaborators *)
(* ===================================================================== *)

Module Sample.

(** Modelled from the spec: [validateUrl] of [src/validation.ts], which is
    not among the sources.  "accepts http(s) absolute URLs, data: URLs, and
    bare relative paths; rejects everything else". *)
Definition valid_url (url : string) : bool :=
  negb (Str.is_empty url)
  && (String.prefix "http://" url || String.prefix "https://" url
      || String.prefix "data:" url || negb (Str.contains ":" url)).

Definition truncate (text : string) (max : nat) : string :=
  substring 0 max text.

Definition image_builder (url alt : string) (title : option string) : result block :=
  if valid_url url
  then Ok (ImageBlock url (truncate alt 2000)
             (option_map (fun t => truncate t 2000) title))
  else Throw ValidationError.

Definition video_builder (v : video_fields) : result block :=
  if Str.is_empty (video_title v) || Str.is_empty (altText v)
  then Throw ValidationError
  else Ok (VideoBlock v).

(** A parser that knows two islands and rejects every other input. *)
Definition xml_parser (raw : string) : result (xml_document unit) :=
  if String.eqb raw "<img src='https://example.com/a.png' alt='a'/>"
  then Ok (mkDoc None [mkImg (Some "https://example.com/a.png") (Some "a")] [])
  else if String.eqb raw "<video src='https://example.com/v.mp4'/>"
  then Ok (mkDoc None []
             [mkVid (Some "https://example.com/v.mp4") None None None])
  else Throw ParseError.

Definition builders (file_builder : string -> result block) : collaborators :=
  {| maxDepth := 100;
     validateUrl := valid_url;
     safeTruncate := truncate;
     image := image_builder;
     file := file_builder;
     video := video_builder;
     richTextList := fun items style indent =>
       Ok (RichTextBlock [RichTextList style indent items]);
     richTextCode := fun text =>
       Ok (RichTextBlock [RichTextPreformatted [RichText text None]]);
     table := fun rows settings => Ok (TableBlock rows settings);
     xml_table := unit;
     xmlParse := xml_parser;
     parseHtmlTable := fun _ => None |}.

Definition env : collaborators := builders Slack.file.

(** The same collaborators with a file builder that rejects one name. *)
Definition strict_env : collaborators :=
  builders (fun name =>
              if String.eqb name "secret.pdf" then Throw ValidationError
              else Slack.file name).

Definition options : ParsingOptions := mkOptions None.

End Sample.

(* ===================================================================== *)
(** ** Definitions used to state further properties *)
(* ===================================================================== *)

(** The characters a lower-cased alphanumeric extension is made of. *)
Definition is_lower_or_digit (a : ascii) : bool :=
  Str.is_lower a || Str.is_digit a.

Fixpoint all_chars (p : ascii -> bool) (s : string) : bool :=
  match s with
  | EmptyString => true
  | String a r => p a && all_chars p r
  end.

(** No two neighbours of the list are both sections. *)
Fixpoint no_adjacent_sections (l : list block) : bool :=
  match l with
  | a :: r =>
      match r with
      | b :: _ => negb (isSectionBlock a && isSectionBlock b)
      | [] => true
      end && no_adjacent_sections r
  | [] => true
  end.

(** The inline tokens [parsePhrasingContent] hands to [parseMrkdwn] without
    consulting a builder: every token that is neither an image nor a link
    classified as a file. *)
Definition isRendered (t : token) : bool :=
  match t with
  | Image _ _ _ => false
  | Link href _ tokens => negb (isFileType (fileExtensionOf href tokens))
  | _ => true
  end.

Definition isImage (t : token) : bool :=
  match t with
  | Image _ _ _ => true
  | _ => false
  end.

(** What an image token adds to the list: the block of the image builder,
    or nothing when the builder throws. *)
Definition imageBlocks (env : collaborators) (t : token) : list block :=
  match t with
  | Image href title text =>
      match image env href
              (Str.or_else text
                 (match title with
                  | Some t => Str.or_else t href
                  | None => href
                  end))
              title with
      | Ok b => [b]
      | Throw _ => []
      end
  | _ => []
  end.

(** The entry a column leaves in the settings list once the list has been
    started: its alignment when that is center or right, the empty entry
    otherwise. *)
Definition setting_of (a : option alignment) : column_setting :=
  match a with
  | Some AlignCenter => Some AlignCenter
  | Some AlignRight => Some AlignRight
  | Some AlignLeft | None => None
  end.

(** A column of default alignment: [left] or unset. *)
Definition is_default (a : option alignment) : bool :=
  match a with
  | Some AlignCenter | Some AlignRight => false
  | Some AlignLeft | None => true
  end.

Fixpoint drop_leading_defaults (align : list (option alignment))
  : list (option alignment) :=
  match align with
  | [] => []
  | a :: rest => if is_default a then drop_leading_defaults rest else align
  end.

Definition isBr (t : token) : bool :=
  match t with
  | Br => true
  | _ => false
  end.

(** A rich element that is not a link to a URL the validator rejects. *)
Definition link_is_valid (env : collaborators)
    (e : rich_text_section_element) : bool :=
  match e with
  | RichLink _ url => validateUrl env url
  | RichText _ _ => true
  end.

(** The child tokens of a list item that [parseList] reads. *)
Definition contributes_to_item (t : block_token) : bool :=
  match t with
  | Paragraph _ | TextBlock _ _ | Code _ => true
  | _ => false
  end.

Definition strip_item (item : list_item block_token) : list_item block_token :=
  mkItem (task item) (checked item)
    (filter contributes_to_item (item_tokens item)).


(** The lines of a text: [s.split('\n')]. *)
Fixpoint lines (s : string) : list string :=
  match s with
  | EmptyString => [EmptyString]
  | String a r =>
      if Ascii.eqb a "010" then EmptyString :: lines r
      else
        match lines r with
        | l :: ls => String a l :: ls
        | [] => [String a EmptyString]
        end
  end.

Definition isTextBlock (t : block_token) : bool :=
  match t with
  | TextBlock _ _ => true
  | _ => false
  end.

(** The top-level tokens the router skips. *)
Definition isSkipped (t : block_token) : bool :=
  match t with
  | TextBlock _ _ | Space => true
  | _ => false
  end.

(** The sample collaborators with an image builder that rejects one
    alternative text. *)
Definition picky_image_env : collaborators :=
  mkCollaborators 100 Sample.valid_url Sample.truncate
    (fun url alt title =>
       if String.eqb alt "a" then Throw ValidationError
       else Sample.image_builder url alt title)
    Slack.file Sample.video_builder
    (fun items style indent =>
       Ok (RichTextBlock [RichTextList style indent items]))
    (fun text => Ok (RichTextBlock [RichTextPreformatted [RichText text None]]))
    (fun rows settings => Ok (TableBlock rows settings))
    unit Sample.xml_parser (fun _ => None).

(* ===================================================================== *)
(** ** The entry point's escaping and the quote extension *)
(* ===================================================================== *)

(** [replacements[char]] of [src/index.ts], and the character itself for a
    character the regular expression [[&<>]] does not match. *)
Definition escapeChar (a : ascii) : string :=
  if Ascii.eqb a "&" then "&amp;"
  else if Ascii.eqb a "<" then "&lt;"
  else if Ascii.eqb a ">" then "&gt;"
  else String a EmptyString.

(** [src.replace(/[&<>]/g, char => replacements[char])]. *)
Fixpoint escapeText (src : string) : string :=
  match src with
  | EmptyString => EmptyString
  | String a r => (escapeChar a ++ escapeText r)%string
  end.

(** The [inlineText] tokenizer installed by [markdownToBlocks]. *)
Definition inlineText (src : string) : token :=
  Text src (escapeText src).

(** [src.indexOf("'")], the [start] hint of the [singleQuote] extension of
    [src/extensions.ts]; [-1] when there is no quote.  Positions are
    counted in the characters of the model; the properties below only
    speak of position zero and of the absence of a quote. *)
Fixpoint indexOfQuote (src : string) : Z :=
  match src with
  | EmptyString => (-1)%Z
  | String a r =>
      if Ascii.eqb a "'" then 0%Z
      else
        let i := indexOfQuote r in
        if (i <? 0)%Z then (-1)%Z else (i + 1)%Z
  end.

(** The [tokenizer] of the [singleQuote] extension: the rule [/^'/]. *)
Definition singleQuoteTokenizer (src : string) : option token :=
  match src with
  | String a _ => if Ascii.eqb a "'" then Some (Text "'" "'") else None
  | EmptyString => None
  end.

(** The list does not end with a section. *)
Definition ends_without_section (l : list block) : bool :=
  match last_block l with
  | Some (SectionBlock _) => false
  | _ => true
  end.

(* ===================================================================== *)
(** ** Facts about strings *)
(* ===================================================================== *)

Lemma append_empty_r (s : string) : (s ++ "")%string = s.
Proof. induction s as [|a s IH]; simpl; [|rewrite IH]; reflexivity. Qed.

Lemma append_assoc (s1 s2 s3 : string) :
  ((s1 ++ s2) ++ s3)%string = (s1 ++ (s2 ++ s3))%string.
Proof. induction s1 as [|a s1 IH]; simpl; [|rewrite IH]; reflexivity. Qed.

(* ===================================================================== *)
(** ** Facts about the monad *)
(* ===================================================================== *)

Lemma bind_ok {S A B} (m : M S A) (k : A -> M S B) s a s' :
  m s = (Ok a, s') -> bind m k s = k a s'.
Proof. intros H. unfold bind. rewrite H. reflexivity. Qed.

Lemma bind_throw {S A B} (m : M S A) (k : A -> M S B) s e s' :
  m s = (Throw e, s') -> bind m k s = (Throw e, s').
Proof. intros H. unfold bind. rewrite H. reflexivity. Qed.

Lemma flatMapM_app {S A B} (f : A -> M S (list B)) xs ys s :
  flatMapM f (xs ++ ys) s =
  match flatMapM f xs s with
  | (Ok bs, s') =>
      match flatMapM f ys s' with
      | (Ok cs, s'') => (Ok (bs ++ cs), s'')
      | (Throw e, s'') => (Throw e, s'')
      end
  | (Throw e, s') => (Throw e, s')
  end.
Proof.
  revert s. induction xs as [|x xs IH]; intros s.
  - simpl. unfold ret. destruct (flatMapM f ys s) as [[cs|e] s'']; reflexivity.
  - change (flatMapM f ((x :: xs) ++ ys) s)
      with (bind (f x) (fun bs => bind (flatMapM f (xs ++ ys))
                                    (fun zs => ret (bs ++ zs))) s).
    change (flatMapM f (x :: xs) s)
      with (bind (f x) (fun bs => bind (flatMapM f xs)
                                    (fun zs => ret (bs ++ zs))) s).
    unfold bind. destruct (f x s) as [[b|e] s1]; [|reflexivity].
    rewrite IH.
    destruct (flatMapM f xs s1) as [[bs|e] s2]; [|reflexivity].
    unfold ret; simpl.
    destruct (flatMapM f ys s2) as [[cs|e] s3]; [|reflexivity].
    rewrite app_assoc. reflexivity.
Qed.

(** A traversal keeps the store when each of its steps does. *)
Lemma flatMapM_store {S A B} (f : A -> M S (list B)) xs :
  Forall (fun x => forall s, snd (f x s) = s) xs ->
  forall s, snd (flatMapM f xs s) = s.
Proof.
  induction 1 as [|x xs Hx _ IH]; intros s; simpl; [reflexivity|].
  unfold bind at 1. specialize (Hx s).
  destruct (f x s) as [[b|e] s1]; simpl in Hx; subst s1; [|reflexivity].
  unfold bind. specialize (IH s).
  destruct (flatMapM f xs s) as [[bs|e] s2]; simpl in *; assumption.
Qed.

(* ===================================================================== *)
(** ** The phrase renderer *)
(* ===================================================================== *)

Section MrkdwnFacts.
Variable env : collaborators.

Lemma parseMrkdwn_too_deep t d :
  (maxDepth env < Z.succ d)%Z ->
  parseMrkdwn env t d = (Throw RecursionLimitError, d).
Proof.
  intros H.
  assert (E : (maxDepth env <? Z.succ d)%Z = true) by (apply Z.ltb_lt; exact H).
  destruct t; simpl; unfold bind, modify, try_finally, get, lift,
    Validation.validateRecursionDepth; simpl; rewrite E; simpl;
    rewrite Z.pred_succ; reflexivity.
Qed.

Lemma mapM_parseMrkdwn ts d :
  (d <= maxDepth env)%Z ->
  Forall (fun t => forall d, parseMrkdwn env t d = (mrkdwn_outcome env t d, d))
    ts ->
  mapM (parseMrkdwn env) ts d =
  (if (maxDepth env <? d + Z.of_nat (list_max (map nesting ts)))%Z
   then Throw RecursionLimitError
   else Ok (map (spec_render env) ts), d).
Proof.
  intros Hd H. induction H as [|t ts Ht _ IH]; simpl.
  - rewrite Z.add_0_r. destruct (Z.ltb_spec (maxDepth env) d); [lia|].
    reflexivity.
  - unfold bind at 1. rewrite Ht. unfold mrkdwn_outcome.
    rewrite Nat2Z.inj_max.
    destruct (Z.ltb_spec (maxDepth env) (d + Z.of_nat (nesting t))) as [L|L].
    + destruct (Z.ltb_spec (maxDepth env)
                  (d + Z.max (Z.of_nat (nesting t))
                         (Z.of_nat (list_max (map nesting ts))))); [|lia].
      reflexivity.
    + unfold bind. rewrite IH.
      destruct (Z.ltb_spec (maxDepth env)
                  (d + Z.of_nat (list_max (map nesting ts)))) as [L'|L'];
        destruct (Z.ltb_spec (maxDepth env)
                    (d + Z.max (Z.of_nat (nesting t))
                           (Z.of_nat (list_max (map nesting ts)))));
        try lia; reflexivity.
Qed.

(** The complete behaviour of [parseMrkdwn]: the counter is restored, and
    the call throws exactly when the nesting passes the ceiling. *)
Lemma parseMrkdwn_outcome t :
  forall d, parseMrkdwn env t d = (mrkdwn_outcome env t d, d).
Proof.
  induction t using token_nested_ind; intros d;
    destruct (Z.ltb_spec (maxDepth env) (Z.succ d)) as [L|L];
    try (rewrite parseMrkdwn_too_deep by exact L; unfold mrkdwn_outcome;
         match goal with
         | |- context [(?a <? ?b)%Z] =>
             destruct (Z.ltb_spec a b); [reflexivity | simpl nesting in *; lia]
         end).
  all: assert (E : (maxDepth env <? Z.succ d)%Z = false)
         by (apply Z.ltb_ge; exact L).
  all: simpl parseMrkdwn;
    unfold bind at 1; unfold modify at 1; unfold try_finally;
    unfold bind at 1; unfold get at 1;
    unfold bind at 1; unfold lift at 1;
    unfold Validation.validateRecursionDepth; rewrite E.
  all: try (unfold ret, mrkdwn_outcome; simpl nesting; simpl spec_render;
            rewrite Z.pred_succ;
            match goal with
            | |- context [(?a <? ?b)%Z] =>
                destruct (Z.ltb_spec a b); [lia | reflexivity]
            end).
  all: try (destruct (validHref env href) eqn:V).
  all: unfold bind; rewrite (mapM_parseMrkdwn _ (Z.succ d) L) by assumption;
    unfold mrkdwn_outcome; simpl nesting; simpl spec_render; try rewrite V;
    rewrite Nat2Z.inj_succ;
    replace (d + Z.succ (Z.of_nat (list_max (map nesting tokens))))%Z
      with (Z.succ d + Z.of_nat (list_max (map nesting tokens)))%Z by lia;
    destruct (Z.ltb_spec (maxDepth env)
                (Z.succ d + Z.of_nat (list_max (map nesting tokens))));
    unfold ret; rewrite Z.pred_succ; reflexivity.
Qed.

End MrkdwnFacts.

(** C5.  A call of the phrase renderer leaves the shared counter at its
    pre-call value on every exit, normal or thrown.  Made at counter value
    zero (the module's initial value), it throws the recursion-limit error
    if and only if the nesting of the token exceeds the ceiling, and a token
    nested exactly at the ceiling is rendered.  Made with [d] activations
    already open, the same holds of [d] plus the nesting of the token. *)
Theorem parseMrkdwn_recursion_ceiling (env : collaborators) (t : token) :
  (forall d, snd (parseMrkdwn env t d) = d) /\
  (fst (parseMrkdwn env t 0%Z) = Throw RecursionLimitError <->
   (maxDepth env < Z.of_nat (nesting t))%Z) /\
  (Z.of_nat (nesting t) = maxDepth env ->
   fst (parseMrkdwn env t 0%Z) = Ok (spec_render env t)) /\
  (forall d, fst (parseMrkdwn env t d) = Throw RecursionLimitError <->
             (maxDepth env < d + Z.of_nat (nesting t))%Z).
Proof.
  assert (G : forall d, fst (parseMrkdwn env t d) = Throw RecursionLimitError <->
                        (maxDepth env < d + Z.of_nat (nesting t))%Z).
  { intros d. rewrite parseMrkdwn_outcome. unfold mrkdwn_outcome. simpl.
    destruct (Z.ltb_spec (maxDepth env) (d + Z.of_nat (nesting t))).
    - split; [intros _; assumption | reflexivity].
    - split; [discriminate | lia]. }
  repeat split.
  - intros d. rewrite parseMrkdwn_outcome. reflexivity.
  - intros H. apply G in H. lia.
  - intros H. apply G. lia.
  - intros H. rewrite parseMrkdwn_outcome. unfold mrkdwn_outcome.
    destruct (Z.ltb_spec (maxDepth env) (0 + Z.of_nat (nesting t)));
      [lia | reflexivity].
  - apply G.
  - apply G.
Qed.

Lemma parseMrkdwn_recursion_ceiling_witness :
  Z.of_nat (nesting (nested_em 99)) = maxDepth Sample.env /\
  fst (parseMrkdwn Sample.env (nested_em 99) 0%Z) =
  Ok (spec_render Sample.env (nested_em 99)).
Proof.
  split; [reflexivity|].
  apply (proj1 (proj2 (proj2
           (parseMrkdwn_recursion_ceiling Sample.env (nested_em 99))))).
  reflexivity.
Defined.

(** One nesting level more than the ceiling of the sample collaborators:
    the call throws, and the counter is back at zero. *)
Example nested_beyond_ceiling :
  parseMrkdwn Sample.env (nested_em 100) 0%Z = (Throw RecursionLimitError, 0%Z).
Proof. vm_compute. reflexivity. Qed.

(** C6.  The phrase renderer returns the markup the specification states
    for each inline kind: [<url|text> ] for a link with a valid URL, the
    joined children for a link with an invalid one, [_text_], [*text*],
    [~text~], the verbatim text between backticks for a code span (its
    children are not visited), and plain text verbatim.  It does so on every
    call that stays within the recursion ceiling, and the only other outcome
    of a call is the recursion-limit error. *)
Theorem parseMrkdwn_renders_markup (env : collaborators) (t : token) (d : Z) :
  parseMrkdwn env t d =
  (if (maxDepth env <? d + Z.of_nat (nesting t))%Z
   then Throw RecursionLimitError
   else Ok (spec_render env t), d) /\
  ((d + Z.of_nat (nesting t) <= maxDepth env)%Z ->
   parseMrkdwn env t d = (Ok (spec_render env t), d)).
Proof.
  split; [apply parseMrkdwn_outcome|].
  intros H. rewrite parseMrkdwn_outcome. unfold mrkdwn_outcome.
  destruct (Z.ltb_spec (maxDepth env) (d + Z.of_nat (nesting t)));
    [lia | reflexivity].
Qed.

Lemma parseMrkdwn_renders_markup_witness :
  parseMrkdwn Sample.env
    (Link "https://example.com" "*d*" [Em "d" [Text "d" "d"]]) 0%Z =
  (Ok "<https://example.com|_d_> ", 0%Z).
Proof.
  apply (proj2 (parseMrkdwn_renders_markup Sample.env
                  (Link "https://example.com" "*d*" [Em "d" [Text "d" "d"]])
                  0%Z)).
  vm_compute. discriminate.
Defined.

(** Each inline kind on a small input: an invalid URL leaves the children
    unwrapped, and the children of a code span are not rendered. *)
Example markup_by_kind :
  map (fun t => fst (parseMrkdwn Sample.env t 0%Z))
    [Link "http://a.b/c" "x" [Text "x" "x"];
     Link "javascript:alert(1)" "x" [Strong "x" [Text "x" "x"]];
     Em "x" [Text "x" "x"];
     Strong "x" [Text "x" "x"];
     Del "x" [Text "x" "x"];
     Codespan "`*x*`" "*x*";
     Text "a_b" "a_b"] =
  [Ok "<http://a.b/c|x> "; Ok "*x*"; Ok "_x_"; Ok "*x*"; Ok "~x~";
   Ok "`*x*`"; Ok "a_b"].
Proof. vm_compute. reflexivity. Qed.

(** The end-to-end example of the specification, on the tokens marked
    produces for ["**a ~b~** c[*d*](https://example.com)"]. *)
Example basic_markdown :
  parseBlocks Sample.env
    [Paragraph
       [Strong "a ~b~" [Text "a " "a "; Del "b" [Text "b" "b"]];
        Text " c" " c";
        Link "https://example.com" "*d*" [Em "d" [Text "d" "d"]]]]
    Sample.options 0%Z =
  (Ok [SectionBlock "*a ~b~* c<https://example.com|_d_> "], 0%Z).
Proof. vm_compute. reflexivity. Qed.

(* ===================================================================== *)
(** ** The accumulation step *)
(* ===================================================================== *)

Section AccumulateFacts.
Variable env : collaborators.

Lemma render_and_add_outcome element accumulator d :
  render_and_add env element (accumulator, d) =
  match mrkdwn_outcome env element d with
  | Ok text => addMrkdwn env text (accumulator, d)
  | Throw e => (Throw e, (accumulator, d))
  end.
Proof.
  unfold render_and_add, bind, on_depth. rewrite parseMrkdwn_outcome.
  destruct (mrkdwn_outcome env element d); reflexivity.
Qed.

Lemma addMrkdwn_added content accumulator d :
  addMrkdwn env content (accumulator, d) =
  (Ok tt, (added env content accumulator, d)).
Proof.
  unfold addMrkdwn, added, push.
  destruct (last_block accumulator) as [[]|]; reflexivity.
Qed.

Lemma added_effect content accumulator :
  step_effect accumulator (added env content accumulator).
Proof.
  unfold added. destruct (last_block accumulator) as [b|] eqn:E.
  - destruct b; try apply effect_push. apply effect_append. exact E.
  - apply effect_push.
Qed.

Lemma step_effect_frame accumulator accumulator' :
  step_effect accumulator accumulator' ->
  forall i, i < length accumulator - 1 ->
            nth_error accumulator' i = nth_error accumulator i.
Proof.
  intros H i Hi. destruct H.
  - reflexivity.
  - apply nth_error_app1. lia.
  - unfold set_last. rewrite nth_error_app1.
    + rewrite nth_error_firstn.
      destruct (Nat.ltb_spec i (length accumulator - 1)); [reflexivity | lia].
    + rewrite length_firstn. lia.
Qed.

Lemma render_and_add_effect element accumulator d :
  step_effect accumulator (fst (snd (render_and_add env element (accumulator, d))))
  /\ snd (snd (render_and_add env element (accumulator, d))) = d.
Proof.
  rewrite render_and_add_outcome.
  destruct (mrkdwn_outcome env element d).
  - rewrite addMrkdwn_added. simpl. split; [apply added_effect | reflexivity].
  - simpl. split; [apply effect_none | reflexivity].
Qed.

Lemma parsePhrasingContent_effect element accumulator d :
  step_effect accumulator
    (fst (snd (parsePhrasingContent env element (accumulator, d))))
  /\ snd (snd (parsePhrasingContent env element (accumulator, d))) = d.
Proof.
  destruct element;
    try exact (render_and_add_effect _ accumulator d).
  - (* link *)
    unfold parsePhrasingContent.
    match goal with
    | |- context [if ?c then _ else _] => destruct c
    end; [|exact (render_and_add_effect _ accumulator d)].
    unfold try_catch, bind, lift.
    match goal with
    | |- context [file env ?n] => destruct (file env n)
    end.
    + simpl. split; [apply effect_push | reflexivity].
    + exact (render_and_add_effect _ accumulator d).
  - (* image *)
    unfold parsePhrasingContent, try_catch, bind, lift.
    match goal with
    | |- context [image env ?u ?a ?t] => destruct (image env u a t)
    end; simpl; split;
      [apply effect_push | reflexivity | apply effect_none | reflexivity].
Qed.

End AccumulateFacts.

(** C9.  A call of the accumulation step, whether it returns or throws,
    leaves every element of the output list except the last one as it was.
    What it has done to the list is one of: nothing; a push of one new block
    at the end; an append of text to the section that was the last element.
    The same holds of [addMrkdwn] alone. *)
Theorem accumulation_step_frame (env : collaborators) (element : token)
    (content : string) (accumulator : list block) (d : Z) :
  let after := fst (snd (parsePhrasingContent env element (accumulator, d))) in
  let after_add := fst (snd (addMrkdwn env content (accumulator, d))) in
  (forall i, i < length accumulator - 1 ->
             nth_error after i = nth_error accumulator i) /\
  step_effect accumulator after /\
  (forall i, i < length accumulator - 1 ->
             nth_error after_add i = nth_error accumulator i) /\
  step_effect accumulator after_add.
Proof.
  intros after after_add.
  assert (E : step_effect accumulator after)
    by apply (parsePhrasingContent_effect env element accumulator d).
  assert (E' : step_effect accumulator after_add).
  { unfold after_add. rewrite addMrkdwn_added. apply added_effect. }
  repeat split; try assumption; intros i Hi;
    eapply step_effect_frame; eassumption.
Qed.

Lemma accumulation_step_frame_witness :
  1 < length [ImageBlock "u" "a" None; SectionBlock "x"; SectionBlock "y"] - 1 /\
  nth_error
    (fst (snd (parsePhrasingContent Sample.env (Text "z" "z")
                 ([ImageBlock "u" "a" None; SectionBlock "x"; SectionBlock "y"],
                  0%Z))))
    1 = Some (SectionBlock "x").
Proof.
  split; [simpl; lia|].
  apply (proj1 (accumulation_step_frame Sample.env (Text "z" "z") ""
                  [ImageBlock "u" "a" None; SectionBlock "x"; SectionBlock "y"]
                  0%Z) 1).
  simpl. lia.
Defined.

(* ===================================================================== *)
(** ** Paragraphs *)
(* ===================================================================== *)

Section ParagraphFacts.
Variable env : collaborators.

Lemma parsePhrasingContent_plain element accumulator d :
  isTextEmStrong element = true ->
  parsePhrasingContent env element (accumulator, d) =
  render_and_add env element (accumulator, d).
Proof. destruct element; try discriminate; reflexivity. Qed.

(** Once the list ends with a section, every further text, emphasis or
    strong token is appended to that section. *)
Lemma reduce_phrasing_merges tokens :
  forall text d,
    Forall (fun x => isTextEmStrong x = true) tokens ->
    Forall (fun x => (d + Z.of_nat (nesting x) <= maxDepth env)%Z) tokens ->
    reduce_phrasing env tokens ([SectionBlock text], d) =
    (Ok tt,
     ([SectionBlock (text ++ Str.join (map (spec_render env) tokens))], d)).
Proof.
  induction tokens as [|t rest IH]; intros text d Hk Hd.
  - simpl. unfold ret. rewrite append_empty_r. reflexivity.
  - inversion Hk as [|? ? Hk1 Hk2]; inversion Hd as [|? ? Hd1 Hd2]; subst.
    change (reduce_phrasing env (t :: rest))
      with (bind (parsePhrasingContent env t)
              (fun _ => reduce_phrasing env rest)).
    unfold bind. rewrite parsePhrasingContent_plain by assumption.
    rewrite render_and_add_outcome. unfold mrkdwn_outcome.
    destruct (Z.ltb_spec (maxDepth env) (d + Z.of_nat (nesting t))); [lia|].
    rewrite addMrkdwn_added. unfold added. simpl last_block. simpl set_last.
    cbv beta iota.
    change (set_last [SectionBlock text]
              (SectionBlock (text ++ spec_render env t)))
      with [SectionBlock (text ++ spec_render env t)].
    rewrite IH by assumption. simpl map. simpl Str.join.
    rewrite append_assoc. reflexivity.
Qed.

Lemma parseParagraph_merges t rest d :
  Forall (fun x => isTextEmStrong x = true) (t :: rest) ->
  Forall (fun x => (d + Z.of_nat (nesting x) <= maxDepth env)%Z) (t :: rest) ->
  parseParagraph env (t :: rest) d =
  (Ok [SectionBlock (safeTruncate env (spec_render env t) 3000
                     ++ Str.join (map (spec_render env) rest))], d).
Proof.
  intros Hk Hd.
  inversion Hk as [|? ? Hk1 Hk2]; inversion Hd as [|? ? Hd1 Hd2]; subst.
  unfold parseParagraph.
  change (reduce_phrasing env (t :: rest))
    with (bind (parsePhrasingContent env t)
            (fun _ => reduce_phrasing env rest)).
  unfold bind. rewrite parsePhrasingContent_plain by assumption.
  rewrite render_and_add_outcome. unfold mrkdwn_outcome.
  destruct (Z.ltb_spec (maxDepth env) (d + Z.of_nat (nesting t))); [lia|].
  rewrite addMrkdwn_added. unfold added. simpl last_block. simpl app.
  cbv beta iota. unfold Slack.section.
  rewrite reduce_phrasing_merges by assumption.
  reflexivity.
Qed.

(** A paragraph leaves the counter where it found it. *)
Lemma reduce_phrasing_depth tokens :
  forall accumulator d,
    snd (snd (reduce_phrasing env tokens (accumulator, d))) = d.
Proof.
  induction tokens as [|t rest IH]; intros accumulator d; [reflexivity|].
  change (reduce_phrasing env (t :: rest))
    with (bind (parsePhrasingContent env t)
            (fun _ => reduce_phrasing env rest)).
  unfold bind.
  pose proof (proj2 (parsePhrasingContent_effect env t accumulator d)) as H.
  destruct (parsePhrasingContent env t (accumulator, d)) as [[u|e] [a' d']];
    simpl in H; subst d'; [apply IH | reflexivity].
Qed.

Lemma parseParagraph_depth tokens d :
  snd (parseParagraph env tokens d) = d.
Proof.
  unfold parseParagraph.
  pose proof (reduce_phrasing_depth tokens [] d) as H.
  destruct (reduce_phrasing env tokens ([], d)) as [[u|e] [a' d']];
    simpl in H; subst d'; reflexivity.
Qed.

End ParagraphFacts.

(** C1, as the code has it.  A paragraph whose inline tokens are one or more
    text, emphasis and strong tokens, each nested within the recursion
    ceiling, yields exactly one section: its text is the (truncated) markup
    of the first token followed by the markup of every further token, each
    appended to that same section.  (A paragraph without tokens yields no
    block, and one nested beyond the ceiling throws.) *)
Theorem paragraph_merges_into_one_section (env : collaborators)
    (t : token) (rest : list token) (options : ParsingOptions) (d : Z) :
  Forall (fun x => isTextEmStrong x = true) (t :: rest) ->
  Forall (fun x => (d + Z.of_nat (nesting x) <= maxDepth env)%Z) (t :: rest) ->
  parseBlocks env [Paragraph (t :: rest)] options d =
  (Ok [SectionBlock (safeTruncate env (spec_render env t) 3000
                     ++ Str.join (map (spec_render env) rest))], d).
Proof.
  intros Hk Hd. unfold parseBlocks. simpl flatMapM. unfold bind.
  simpl parseToken. rewrite parseParagraph_merges by assumption.
  unfold ret. rewrite app_nil_r. reflexivity.
Qed.

Lemma paragraph_merges_into_one_section_witness :
  parseBlocks Sample.env
    [Paragraph [Text "a " "a "; Em "b" [Text "b" "b"];
                Strong "c" [Text "c" "c"]]]
    Sample.options 0%Z =
  (Ok [SectionBlock "a _b_*c*"], 0%Z).
Proof.
  apply (paragraph_merges_into_one_section Sample.env
           (Text "a " "a ")
           [Em "b" [Text "b" "b"]; Strong "c" [Text "c" "c"]]
           Sample.options 0%Z).
  - repeat constructor.
  - repeat constructor; vm_compute; discriminate.
Defined.

(** C1 as stated fails: a paragraph whose token sequence is empty consists
    of nothing but text, emphasis and strong tokens, and yields no block at
    all; and a paragraph of one emphasis token nested one level beyond the
    ceiling (100 for the sample collaborators) yields no block either, the
    walk throws. *)
Lemma paragraph_without_tokens :
  (Forall (fun x => isTextEmStrong x = true) [] /\
   parseBlocks Sample.env [Paragraph []] Sample.options 0%Z = (Ok [], 0%Z)) /\
  (Forall (fun x => isTextEmStrong x = true) [nested_em 100] /\
   parseBlocks Sample.env [Paragraph [nested_em 100]] Sample.options 0%Z =
   (Throw RecursionLimitError, 0%Z)).
Proof.
  split; split; try (constructor; [reflexivity | constructor]).
  - constructor.
  - reflexivity.
  - vm_compute. reflexivity.
Qed.

Lemma nesting_nested_em (n : nat) : nesting (nested_em n) = S n.
Proof.
  induction n as [|k IH]; [reflexivity|].
  simpl. rewrite IH. reflexivity.
Qed.

(** Whatever the ceiling, a paragraph of emphasis tokens nested beyond it
    yields no section: the walk throws. *)
Lemma paragraph_beyond_ceiling (env : collaborators) (n : nat)
    (options : ParsingOptions) :
  (maxDepth env < Z.of_nat (S n))%Z ->
  parseBlocks env [Paragraph [nested_em n]] options 0%Z =
  (Throw RecursionLimitError, 0%Z).
Proof.
  intros H. unfold parseBlocks. simpl flatMapM. unfold bind.
  simpl parseToken. unfold parseParagraph. simpl reduce_phrasing. unfold bind.
  assert (N : nesting (nested_em n) = S n) by apply nesting_nested_em.
  assert (E : parsePhrasingContent env (nested_em n) ([], 0%Z) =
              render_and_add env (nested_em n) ([], 0%Z))
    by (destruct n; reflexivity).
  rewrite E, render_and_add_outcome. unfold mrkdwn_outcome. rewrite N.
  destruct (Z.ltb_spec (maxDepth env) (0 + Z.of_nat (S n))); [reflexivity|lia].
Qed.

(* ===================================================================== *)
(** ** Links and files *)
(* ===================================================================== *)

Lemma alnum_not_delimiter (a : ascii) :
  Str.is_alnum a = true ->
  Ascii.eqb a "." = false /\ Ascii.eqb a "?" = false /\
  Ascii.eqb a "#" = false.
Proof.
  destruct a as [[] [] [] [] [] [] [] []]; vm_compute; intros H;
    try discriminate; repeat split.
Qed.

Lemma all_alnum_dot (s t : string) :
  Str.all_alnum (s ++ String "." t) = false.
Proof.
  induction s as [|a s IH]; simpl; [reflexivity|].
  rewrite IH. apply andb_false_r.
Qed.

Lemma alnum_to_end_dot (s t : string) :
  Str.alnum_to_end (s ++ String "." t) = false.
Proof.
  destruct s as [|a s]; [reflexivity|].
  simpl. rewrite all_alnum_dot. apply andb_false_r.
Qed.

(** The regular expression finds the last dot when only alphanumerics
    follow it. *)
Lemma match_extension_suffix (path ext : string) :
  Str.alnum_to_end ext = true ->
  Str.match_extension (path ++ String "." ext) = Some ext.
Proof.
  intros H. induction path as [|a p IH]; simpl.
  - rewrite H. reflexivity.
  - rewrite alnum_to_end_dot, andb_false_r. exact IH.
Qed.

Lemma pathname_cons (a : ascii) (s : string) :
  Ascii.eqb a "?" = false -> Ascii.eqb a "#" = false ->
  pathname (String a s) = String a (pathname s).
Proof.
  intros H1 H2. unfold pathname. simpl. rewrite H1. simpl. rewrite H2.
  reflexivity.
Qed.

(** The query string and the fragment are cut off the path. *)
Lemma pathname_strips (path tail : string) :
  Str.contains "?" path = false -> Str.contains "#" path = false ->
  is_query_or_fragment tail = true ->
  pathname (path ++ tail) = path.
Proof.
  intros Hq Hf Ht. induction path as [|a p IH].
  - simpl. destruct tail as [|c t]; [reflexivity|].
    simpl in Ht. unfold pathname. simpl.
    destruct (Ascii.eqb_spec c "?") as [->|Hc]; [reflexivity|].
    simpl in Ht. simpl. rewrite Ht. reflexivity.
  - unfold Str.contains in Hq, Hf. simpl in Hq, Hf.
    apply orb_false_elim in Hq, Hf. destruct Hq as [Hq1 Hq2], Hf as [Hf1 Hf2].
    simpl. rewrite pathname_cons.
    + rewrite IH by assumption. reflexivity.
    + rewrite Ascii.eqb_sym. exact Hq1.
    + rewrite Ascii.eqb_sym. exact Hf1.
Qed.

Lemma contains_alnum (c : ascii) (ext : string) :
  (forall a, Str.is_alnum a = true -> Ascii.eqb a c = false) ->
  Str.all_alnum ext = true -> Str.contains c ext = false.
Proof.
  intros Hc. induction ext as [|a s IH]; intros H; [reflexivity|].
  simpl in H. apply andb_prop in H. destruct H as [Ha Hs].
  unfold Str.contains. simpl. rewrite Ascii.eqb_sym, (Hc a Ha). simpl.
  apply IH. exact Hs.
Qed.

Lemma contains_app (c : ascii) (s t : string) :
  Str.contains c (s ++ t) = Str.contains c s || Str.contains c t.
Proof.
  unfold Str.contains. induction s as [|a s IH]; simpl; [reflexivity|].
  rewrite IH. apply orb_assoc.
Qed.

(** The extension of a URL or of a display text: what follows the last dot
    of the path, lower-cased, whatever query string or fragment follows. *)
Lemma detectFileExtension_path (path ext tail : string) :
  Str.contains "?" path = false -> Str.contains "#" path = false ->
  Str.alnum_to_end ext = true ->
  is_query_or_fragment tail = true ->
  detectFileExtension (path ++ String "." ext ++ tail) =
  Some (Str.toLowerCase ext).
Proof.
  intros Hq Hf He Ht. unfold detectFileExtension.
  assert (Ha : Str.all_alnum ext = true) by (destruct ext; [discriminate|exact He]).
  replace (path ++ String "." ext ++ tail)%string
    with ((path ++ String "." ext) ++ tail)%string
    by (rewrite append_assoc; reflexivity).
  rewrite pathname_strips; try assumption.
  - rewrite match_extension_suffix by assumption. reflexivity.
  - rewrite contains_app, Hq. unfold Str.contains at 1. simpl.
    fold (Str.contains "?" ext). apply contains_alnum; [|exact Ha].
    intros a H. apply alnum_not_delimiter. exact H.
  - rewrite contains_app, Hf. unfold Str.contains at 1. simpl.
    fold (Str.contains "#" ext). apply contains_alnum; [|exact Ha].
    intros a H. apply alnum_not_delimiter. exact H.
Qed.

Lemma last_block_snoc (l : list block) (b : block) :
  last_block (l ++ [b]) = Some b.
Proof.
  unfold last_block. destruct (l ++ [b]) eqn:E.
  - destruct l; discriminate.
  - rewrite <- E. rewrite length_app. simpl.
    rewrite nth_error_app2 by lia.
    replace (length l + 1 - 1 - length l) with 0 by lia. reflexivity.
Qed.

Lemma added_ends_with_section env content accumulator :
  exists text, last_block (added env content accumulator) = Some (SectionBlock text).
Proof.
  unfold added. destruct (last_block accumulator) as [[]|];
    unfold set_last, Slack.section; rewrite last_block_snoc; eexists; reflexivity.
Qed.

Lemma isFileType_spec (extension : option string) :
  isFileType extension = true <->
  exists e, extension = Some e /\ In e FILE_EXTENSIONS.
Proof.
  unfold isFileType. split.
  - destruct extension as [e|]; [|discriminate].
    intros H. apply existsb_exists in H. destruct H as [x [Hin Heq]].
    apply String.eqb_eq in Heq. subst x. exists e. split; [reflexivity|assumption].
  - intros [e [-> Hin]]. apply existsb_exists. exists e.
    split; [assumption | apply String.eqb_refl].
Qed.

Lemma extractFileName_not_empty (href : string) : extractFileName href <> "".
Proof.
  unfold extractFileName, Str.or_else.
  destruct (Str.after_last "/" (pathname href)); simpl; discriminate.
Qed.

Lemma after_last_segment (dir name : string) :
  Str.contains "/" name = false ->
  Str.after_last "/" (dir ++ String "/" name) = name.
Proof.
  intros H. induction dir as [|a d IH]; simpl.
  - fold (Str.contains "/" name). rewrite H. reflexivity.
  - fold (Str.contains "/" (d ++ String "/" name)).
    rewrite contains_app. unfold Str.contains at 2. simpl.
    rewrite orb_true_r. exact IH.
Qed.

(** The filename of a URL or of a display text: its last path segment,
    whatever query string or fragment follows, and ["Document"] when that
    segment is empty. *)
Lemma extractFileName_path (dir name tail : string) :
  Str.contains "?" dir = false -> Str.contains "#" dir = false ->
  Str.contains "?" name = false -> Str.contains "#" name = false ->
  Str.contains "/" name = false ->
  is_query_or_fragment tail = true ->
  extractFileName (dir ++ String "/" name ++ tail) =
  Str.or_else name "Document".
Proof.
  intros Hq Hf Hq' Hf' Hs Ht. unfold extractFileName.
  replace (dir ++ String "/" name ++ tail)%string
    with ((dir ++ String "/" name) ++ tail)%string
    by (rewrite append_assoc; reflexivity).
  rewrite pathname_strips; try assumption.
  - rewrite after_last_segment by assumption. reflexivity.
  - rewrite contains_app, Hq. unfold Str.contains at 1. simpl. exact Hq'.
  - rewrite contains_app, Hf. unfold Str.contains at 1. simpl. exact Hf'.
Qed.

(** C3, as the code has it.  The extension that decides is the one of the
    URL path (query string and fragment ignored) whenever that path has an
    extension at all, and the one of the display text only when it has
    none; both are lower-cased before the look-up in the allow-list.  When
    the deciding extension is on the list, the step pushes the File block
    built for the extracted filename; when it is not (or there is none),
    the step adds the styled link as section text, so that the list ends
    with a section.  The extension of a URL or text is what follows the
    last dot of its path when that is alphanumeric, lower-cased, and a
    query string or fragment after the path does not change it. *)
Theorem link_classification (env : collaborators) (href text : string)
    (tokens : list token) (accumulator : list block) (d : Z) :
  (isFileType (fileExtensionOf href tokens) = true <->
   (exists e, detectFileExtension href = Some e /\ In e FILE_EXTENSIONS) \/
   (detectFileExtension href = None /\
    exists e, detectFileExtension (linkTextOf tokens) = Some e /\
              In e FILE_EXTENSIONS)) /\
  (isFileType (fileExtensionOf href tokens) = true ->
   file env (fileNameOf href tokens) = Ok (FileBlock (fileNameOf href tokens)) ->
   parsePhrasingContent env (Link href text tokens) (accumulator, d) =
   (Ok tt, (accumulator ++ [FileBlock (fileNameOf href tokens)], d))) /\
  (isFileType (fileExtensionOf href tokens) = false ->
   (d + Z.of_nat (nesting (Link href text tokens)) <= maxDepth env)%Z ->
   parsePhrasingContent env (Link href text tokens) (accumulator, d) =
   (Ok tt,
    (added env (spec_render env (Link href text tokens)) accumulator, d)) /\
   exists s,
     last_block (added env (spec_render env (Link href text tokens)) accumulator)
     = Some (SectionBlock s)) /\
  (forall path ext tail,
     Str.contains "?" path = false -> Str.contains "#" path = false ->
     Str.alnum_to_end ext = true ->
     is_query_or_fragment tail = true ->
     detectFileExtension (path ++ String "." ext ++ tail) =
     Some (Str.toLowerCase ext)).
Proof.
  split; [|split; [|split; [|apply detectFileExtension_path]]].
  - rewrite isFileType_spec. unfold fileExtensionOf.
    destruct (detectFileExtension href) as [u|].
    + split.
      * intros [e [H Hin]]. left. exists e. split; assumption.
      * intros [[e [H Hin]] | [H _]]; [|discriminate].
        exists e. split; assumption.
    + split.
      * intros [e [H Hin]]. right. split; [reflexivity|].
        exists e. split; assumption.
      * intros [[e [H _]] | [_ [e [H Hin]]]]; [discriminate|].
        exists e. split; assumption.
  - intros Hfile Hbuild.
    unfold parsePhrasingContent.
    change (isFileType (fileExtensionOf href tokens) = true) in Hfile.
    unfold fileExtensionOf, linkTextOf in Hfile. rewrite Hfile.
    unfold try_catch, bind, lift.
    unfold fileNameOf, linkTextOf in Hbuild. rewrite Hbuild.
    reflexivity.
  - intros Hfile Hdepth. split; [|apply added_ends_with_section].
    unfold parsePhrasingContent.
    unfold fileExtensionOf, linkTextOf in Hfile. rewrite Hfile.
    fold (render_and_add env (Link href text tokens)).
    rewrite render_and_add_outcome. unfold mrkdwn_outcome.
    destruct (Z.ltb_spec (maxDepth env)
                (d + Z.of_nat (nesting (Link href text tokens)))); [lia|].
    apply addMrkdwn_added.
Qed.

Lemma link_classification_witness :
  parsePhrasingContent Sample.env
    (Link "https://example.com/docs.PDF#page=5" "the manual"
       [Text "the manual" "the manual"])
    ([], 0%Z) =
  (Ok tt, ([FileBlock "docs.PDF"], 0%Z)) /\
  parsePhrasingContent Sample.env
    (Link "https://example.com/page.html" "page.html"
       [Text "page.html" "page.html"])
    ([], 0%Z) =
  (Ok tt, ([SectionBlock "<https://example.com/page.html|page.html> "], 0%Z)).
Proof.
  split.
  - apply (proj1 (proj2 (link_classification Sample.env
             "https://example.com/docs.PDF#page=5" "the manual"
             [Text "the manual" "the manual"] [] 0%Z)));
      reflexivity.
  - apply (proj1 (proj1 (proj2 (proj2 (link_classification Sample.env
             "https://example.com/page.html" "page.html"
             [Text "page.html" "page.html"] [] 0%Z))) eq_refl
             ltac:(vm_compute; discriminate))).
Defined.

(** C3 as stated fails: the display text ends in a recognized extension,
    but the URL path ends in [.com], which is taken for its extension and
    decides; the link stays a styled link in a section. *)
Lemma recognized_text_extension_not_consulted :
  isFileType (detectFileExtension "report.pdf") = true /\
  detectFileExtension "https://example.com" = Some "com" /\
  parseBlocks Sample.env
    [Paragraph [Link "https://example.com" "report.pdf"
                  [Text "report.pdf" "report.pdf"]]]
    Sample.options 0%Z =
  (Ok [SectionBlock "<https://example.com|report.pdf> "], 0%Z).
Proof. repeat split; vm_compute; reflexivity. Qed.

(** C7, as the code has it.  For a link classified as a file, the
    identifier handed to the File builder is never empty; it is the last
    path segment of the display text (query string and fragment stripped)
    when the display text ends in an extension of any kind, recognized or
    not, and the last path segment of the URL otherwise, with ["Document"]
    standing in for an empty segment.  When the builder returns a block it
    is pushed; when it throws, the link is rendered as a styled link and
    added as section text. *)
Theorem file_block_identifier (env : collaborators) (href text : string)
    (tokens : list token) (accumulator : list block) (d : Z) :
  isFileType (fileExtensionOf href tokens) = true ->
  fileNameOf href tokens <> "" /\
  fileNameOf href tokens =
    Str.or_else
      (Str.after_last "/"
         (pathname (match detectFileExtension (linkTextOf tokens) with
                    | Some _ => linkTextOf tokens
                    | None => href
                    end)))
      "Document" /\
  (forall b, file env (fileNameOf href tokens) = Ok b ->
     parsePhrasingContent env (Link href text tokens) (accumulator, d) =
     (Ok tt, (accumulator ++ [b], d))) /\
  (forall e, file env (fileNameOf href tokens) = Throw e ->
     parsePhrasingContent env (Link href text tokens) (accumulator, d) =
     render_and_add env (Link href text tokens) (accumulator, d)) /\
  (forall dir name tail,
     Str.contains "?" dir = false -> Str.contains "#" dir = false ->
     Str.contains "?" name = false -> Str.contains "#" name = false ->
     Str.contains "/" name = false ->
     is_query_or_fragment tail = true ->
     extractFileName (dir ++ String "/" name ++ tail) =
     Str.or_else name "Document").
Proof.
  intros Hfile.
  split; [|split; [|split; [|split; [|apply extractFileName_path]]]].
  - unfold fileNameOf.
    destruct (detectFileExtension (linkTextOf tokens));
      apply extractFileName_not_empty.
  - unfold fileNameOf, extractFileName.
    destruct (detectFileExtension (linkTextOf tokens)); reflexivity.
  - intros b Hb. unfold parsePhrasingContent.
    unfold fileExtensionOf, linkTextOf in Hfile. rewrite Hfile.
    unfold try_catch, bind, lift.
    unfold fileNameOf, linkTextOf in Hb. rewrite Hb. reflexivity.
  - intros e He. unfold parsePhrasingContent.
    unfold fileExtensionOf, linkTextOf in Hfile. rewrite Hfile.
    unfold try_catch, bind at 1, lift.
    unfold fileNameOf, linkTextOf in He. rewrite He. reflexivity.
Qed.

Lemma file_block_identifier_witness :
  parsePhrasingContent Sample.env
    (Link "https://example.com/files/report.pdf?dl=1" "the report"
       [Text "the report" "the report"])
    ([], 0%Z) =
  (Ok tt, ([FileBlock "report.pdf"], 0%Z)) /\
  parsePhrasingContent Sample.strict_env
    (Link "https://example.com/x/secret.pdf" "it" [Text "it" "it"])
    ([], 0%Z) =
  render_and_add Sample.strict_env
    (Link "https://example.com/x/secret.pdf" "it" [Text "it" "it"])
    ([], 0%Z).
Proof.
  split.
  - apply (proj1 (proj2 (proj2 (file_block_identifier Sample.env
             "https://example.com/files/report.pdf?dl=1" "the report"
             [Text "the report" "the report"]
             [] 0%Z eq_refl))) (FileBlock "report.pdf")).
    reflexivity.
  - apply (proj1 (proj2 (proj2 (proj2 (file_block_identifier Sample.strict_env
             "https://example.com/x/secret.pdf" "it" [Text "it" "it"]
             [] 0%Z eq_refl)))) ValidationError).
    reflexivity.
Defined.

(** C7 as stated fails: the display text ends in [.2], which is not a
    recognized extension, and still the identifier is taken from the display
    text rather than from the last path segment of the URL. *)
Lemma unrecognized_text_extension_names_the_file :
  detectFileExtension "Download v1.2" = Some "2" /\
  isFileType (detectFileExtension "Download v1.2") = false /\
  extractFileName "https://example.com/files/report.pdf" = "report.pdf" /\
  parseBlocks Sample.env
    [Paragraph [Link "https://example.com/files/report.pdf" "Download v1.2"
                  [Text "Download v1.2" "Download v1.2"]]]
    Sample.options 0%Z =
  (Ok [FileBlock "Download v1.2"], 0%Z).
Proof. repeat split; vm_compute; reflexivity. Qed.

(* ===================================================================== *)
(** ** Column settings *)
(* ===================================================================== *)

(** C2.  What the table builder computes for a center-aligned second column
    between two columns of default alignment: the leading default column
    leaves no entry, and the trailing one leaves an empty entry, so that
    the list is [[{align:"center"}, {}]] and not [[{}, {align:"center"}]].
    The same list results when the default columns are marked [left]. *)
Theorem centered_second_column_settings (env : collaborators)
    (header : list cell_token) (rows : list (list cell_token)) :
  snd (parseTableRowsToBlocks env header rows [None; Some AlignCenter; None])
  = [Some AlignCenter; None] /\
  snd (parseTableRowsToBlocks env header rows
         [Some AlignLeft; Some AlignCenter; Some AlignLeft])
  = [Some AlignCenter; None].
Proof. split; reflexivity. Qed.

(** A column of default alignment at the front of a table leaves no entry:
    the settings of the remaining columns move down by one position. *)
Lemma leading_default_column_dropped (align : list (option alignment)) :
  columnSettingsOf (None :: align) = columnSettingsOf (firstn 19 align).
Proof.
  unfold columnSettingsOf. rewrite firstn_firstn.
  change (firstn 20 (None :: align)) with (None :: firstn 19 align).
  reflexivity.
Qed.

(* ===================================================================== *)
(** ** Embedded markup *)
(* ===================================================================== *)

Lemma map_result_app {A B} (f : A -> result B) xs ys :
  map_result f (xs ++ ys) =
  match map_result f xs with
  | Ok bs =>
      match map_result f ys with
      | Ok cs => Ok (bs ++ cs)
      | Throw e => Throw e
      end
  | Throw e => Throw e
  end.
Proof.
  induction xs as [|x xs IH]; simpl.
  - destruct (map_result f ys); reflexivity.
  - destruct (f x) as [y|e]; [|reflexivity]. rewrite IH.
    destruct (map_result f xs); [|reflexivity].
    destruct (map_result f ys); reflexivity.
Qed.

Section HtmlFacts.
Variable env : collaborators.

Lemma parseHTML_store {S} raw (s : S) : snd (parseHTML env raw s) = s.
Proof.
  unfold parseHTML, try_catch, bind, lift, ret.
  destruct (xmlParse env raw) as [res|e]; [|reflexivity].
  destruct (htmlBlocks env res); reflexivity.
Qed.

Lemma parseHTML_parse_failure {S} raw e (s : S) :
  xmlParse env raw = Throw e -> parseHTML env raw s = (Ok [], s).
Proof.
  intros H. unfold parseHTML, try_catch, bind, lift, ret. rewrite H.
  reflexivity.
Qed.

Lemma parseHTML_parsed {S} raw res (s : S) :
  xmlParse env raw = Ok res ->
  parseHTML env raw s =
  (match htmlBlocks env res with
   | Ok blocks => Ok blocks
   | Throw _ => Ok []
   end, s).
Proof.
  intros H. unfold parseHTML, try_catch, bind, lift, ret. rewrite H.
  destruct (htmlBlocks env res); reflexivity.
Qed.

Lemma htmlImage_invalid img :
  (forall url, img_src img = Some url -> validateUrl env url = false) ->
  htmlImage env img = Ok None.
Proof.
  intros H. unfold htmlImage. destruct (img_src img) as [url|]; [|reflexivity].
  rewrite (H url eq_refl). reflexivity.
Qed.

Lemma htmlVideo_failed vid e :
  video env (htmlVideoFields vid) = Throw e -> htmlVideo env vid = None.
Proof.
  intros H. unfold htmlVideo. rewrite H.
  destruct (Str.is_empty (attr_or (vid_src vid) "")
            || negb (validateUrl env (attr_or (vid_src vid) "")));
    [reflexivity|].
  destruct (negb (Str.is_empty (attr_or (vid_poster vid) ""))
            && negb (validateUrl env (attr_or (vid_poster vid) "")));
    reflexivity.
Qed.

Lemma htmlBlocks_skips_image table imgs1 img imgs2 videos :
  htmlImage env img = Ok None ->
  htmlBlocks env (mkDoc table (imgs1 ++ img :: imgs2) videos) =
  htmlBlocks env (mkDoc table (imgs1 ++ imgs2) videos).
Proof.
  intros H. unfold htmlBlocks. simpl doc_img. simpl doc_table.
  simpl doc_video. rewrite !map_result_app.
  destruct (map_result (htmlImage env) imgs1) as [bs|e]; [|reflexivity].
  simpl map_result. rewrite H.
  destruct (map_result (htmlImage env) imgs2) as [cs|e]; [|reflexivity].
  rewrite !flat_map_app. reflexivity.
Qed.

Lemma htmlBlocks_skips_video table imgs vids1 vid vids2 :
  htmlVideo env vid = None ->
  htmlBlocks env (mkDoc table imgs (vids1 ++ vid :: vids2)) =
  htmlBlocks env (mkDoc table imgs (vids1 ++ vids2)).
Proof.
  intros H. unfold htmlBlocks. simpl doc_img. simpl doc_table.
  simpl doc_video.
  destruct (map_result (htmlImage env) imgs) as [bs|e]; [|reflexivity].
  rewrite !map_app, !flat_map_app. simpl map. simpl flat_map at 3.
  rewrite H. reflexivity.
Qed.

End HtmlFacts.

(** C8.  When the sub-parse of a markup island throws, [parseHTML] returns
    the empty list and leaves the store alone, and the document is parsed
    as if the island were not there.  Within an island that parses, the
    blocks are those of its tags ([parseHTML] returns them unless an image
    builder throws); a tag whose URL does not validate is left out as if it
    were not in the island, and so is a video tag whose builder throws. *)
Theorem html_failures_stay_local (env : collaborators) (raw : string) :
  (forall e, xmlParse env raw = Throw e ->
     (forall d : Z, parseHTML env raw d = (Ok [], d)) /\
     (forall before after options d,
        parseBlocks env (before ++ HtmlBlock raw :: after) options d =
        parseBlocks env (before ++ after) options d)) /\
  (forall res, xmlParse env raw = Ok res ->
     forall d : Z,
       parseHTML env raw d =
       (match htmlBlocks env res with
        | Ok blocks => Ok blocks
        | Throw _ => Ok []
        end, d)) /\
  (forall table imgs1 img imgs2 videos,
     (forall url, img_src img = Some url -> validateUrl env url = false) ->
     htmlBlocks env (mkDoc table (imgs1 ++ img :: imgs2) videos) =
     htmlBlocks env (mkDoc table (imgs1 ++ imgs2) videos)) /\
  (forall table imgs vids1 vid vids2 e,
     video env (htmlVideoFields vid) = Throw e ->
     htmlBlocks env (mkDoc table imgs (vids1 ++ vid :: vids2)) =
     htmlBlocks env (mkDoc table imgs (vids1 ++ vids2))).
Proof.
  repeat split.
  - intros d. eapply parseHTML_parse_failure; eassumption.
  - intros before after options d. unfold parseBlocks.
    rewrite !flatMapM_app.
    destruct (flatMapM (fun token => parseToken env token options) before d)
      as [[bs|e'] d1]; [|reflexivity].
    change (flatMapM (fun token => parseToken env token options)
              (HtmlBlock raw :: after) d1)
      with (bind (parseHTML env raw)
              (fun ys => bind (flatMapM (fun token => parseToken env token options)
                                 after)
                           (fun zs => ret (ys ++ zs))) d1).
    unfold bind at 1. rewrite (parseHTML_parse_failure env raw e d1 H).
    unfold bind.
    destruct (flatMapM (fun token => parseToken env token options) after d1)
      as [[cs|e'] d2]; reflexivity.
  - intros res H d. apply parseHTML_parsed. exact H.
  - intros. apply htmlBlocks_skips_image. apply htmlImage_invalid. assumption.
  - intros. apply htmlBlocks_skips_video. eapply htmlVideo_failed. eassumption.
Qed.

Lemma html_failures_stay_local_witness :
  parseBlocks Sample.env
    ([Hr] ++ HtmlBlock "<table><tr>" :: [Paragraph [Text "a" "a"]])
    Sample.options 0%Z =
  parseBlocks Sample.env ([Hr] ++ [Paragraph [Text "a" "a"]])
    Sample.options 0%Z /\
  htmlBlocks Sample.env
    (mkDoc None
       ([] ++ mkImg (Some "javascript:alert(1)") None
           :: [mkImg (Some "https://example.com/a.png") (Some "a")])
       []) =
  htmlBlocks Sample.env
    (mkDoc None ([] ++ [mkImg (Some "https://example.com/a.png") (Some "a")])
       []).
Proof.
  split.
  - apply (proj2 (proj1 (html_failures_stay_local Sample.env "<table><tr>")
                    ParseError eq_refl)).
  - apply (proj1 (proj2 (proj2 (html_failures_stay_local Sample.env ""))) None
             [] (mkImg (Some "javascript:alert(1)") None)).
    intros url H. injection H as <-. reflexivity.
Defined.

(* ===================================================================== *)
(** ** The counter across the router *)
(* ===================================================================== *)

Lemma keeps_ret {S A} (a : A) : keeps_store (S := S) (ret a).
Proof. intros s. reflexivity. Qed.

Lemma keeps_lift {S A} (r : result A) : keeps_store (S := S) (lift r).
Proof. intros s. reflexivity. Qed.

Lemma keeps_bind {S A B} (m : M S A) (k : A -> M S B) :
  keeps_store m -> (forall a, keeps_store (k a)) -> keeps_store (bind m k).
Proof.
  intros Hm Hk s. unfold bind. specialize (Hm s).
  destruct (m s) as [[a|e] s1]; simpl in Hm; subst s1; [apply Hk|reflexivity].
Qed.

Lemma keeps_flatMapM {S A B} (f : A -> M S (list B)) xs :
  Forall (fun x => keeps_store (f x)) xs -> keeps_store (flatMapM f xs).
Proof. intros H s. apply flatMapM_store. exact H. Qed.

Create HintDb keeps.
#[local] Hint Resolve keeps_ret keeps_lift : keeps.

Section RouterFacts.
Variable env : collaborators.

Lemma keeps_parseParagraph tokens : keeps_store (parseParagraph env tokens).
Proof. intros d. apply parseParagraph_depth. Qed.

Lemma keeps_parseHTML raw : keeps_store (S := Z) (parseHTML env raw).
Proof. intros d. apply parseHTML_store. Qed.

Lemma keeps_trialParse tokens : keeps_store (trialParse env tokens).
Proof.
  apply keeps_flatMapM. apply Forall_forall. intros t _.
  destruct t; auto using keeps_parseParagraph with keeps.
Qed.

Lemma keeps_parseSimpleBlockquote tokens :
  keeps_store (parseSimpleBlockquote env tokens).
Proof.
  unfold parseSimpleBlockquote.
  destruct (forallb isParagraphOrText tokens); [|apply keeps_ret].
  apply keeps_bind; [apply keeps_trialParse|].
  intros testBlocks. destruct (existsb isFileBlock testBlocks);
    [apply keeps_ret|].
  destruct (0 <? length (quoteElementsOf env tokens))%nat; apply keeps_ret.
Qed.

(** The body of [parseBlockquote], with the per-child dispatch named. *)
Lemma parseBlockquote_unfold tokens :
  parseBlockquote env (Blockquote tokens) =
  (simple <- parseSimpleBlockquote env tokens ;;
   match simple with
   | Some blocks => ret blocks
   | None =>
       blocks <- quoteChildBlocks env tokens ;;
       ret (map quoteSection blocks)
   end).
Proof. reflexivity. Qed.

Lemma keeps_quoteChildBlocks tokens :
  Forall (fun t => keeps_store (parseBlockquote env t)) tokens ->
  keeps_store (quoteChildBlocks env tokens).
Proof.
  intros H. apply keeps_flatMapM.
  induction H as [|t ts Ht _ IH]; constructor; [|exact IH].
  destruct t; auto using keeps_parseParagraph, keeps_parseHTML with keeps;
    apply keeps_bind; auto with keeps.
Qed.

Lemma keeps_parseBlockquote t : keeps_store (parseBlockquote env t).
Proof.
  induction t using block_token_nested_ind; try apply keeps_ret.
  rewrite parseBlockquote_unfold.
  apply keeps_bind; [apply keeps_parseSimpleBlockquote|].
  intros [blocks|]; [apply keeps_ret|].
  apply keeps_bind; [|intros; apply keeps_ret].
  apply keeps_quoteChildBlocks. assumption.
Qed.

Lemma keeps_parseToken token options :
  keeps_store (parseToken env token options).
Proof.
  destruct token; try exact (keeps_parseBlockquote (Blockquote tokens));
    simpl; auto using keeps_parseParagraph, keeps_parseHTML with keeps;
    apply keeps_bind; auto with keeps.
Qed.

Lemma keeps_parseBlocks tokens options :
  keeps_store (parseBlocks env tokens options).
Proof.
  apply keeps_flatMapM. apply Forall_forall. intros t _.
  apply keeps_parseToken.
Qed.

Lemma after_invocations_restores history :
  forall d, after_invocations env history d = d.
Proof.
  induction history as [|[tokens options] rest IH]; intros d; simpl;
    [reflexivity|].
  rewrite keeps_parseBlocks. apply IH.
Qed.

End RouterFacts.

(** C10.  Every invocation of [parseBlocks], returning or throwing, leaves
    the module-level counter at the value it found.  Hence, after any
    sequence of earlier invocations started from the initial counter value,
    an invocation on a token tree and options returns or throws exactly
    what a first invocation on them does, and two invocations in a row
    agree. *)
Theorem parseBlocks_deterministic (env : collaborators)
    (history : list (list block_token * ParsingOptions))
    (tokens : list block_token) (options : ParsingOptions) :
  (forall d, snd (parseBlocks env tokens options d) = d) /\
  parseBlocks env tokens options (after_invocations env history 0%Z) =
  parseBlocks env tokens options 0%Z /\
  fst (parseBlocks env tokens options
         (snd (parseBlocks env tokens options
                 (after_invocations env history 0%Z)))) =
  fst (parseBlocks env tokens options (after_invocations env history 0%Z)).
Proof.
  split; [|split].
  - apply keeps_parseBlocks.
  - rewrite after_invocations_restores. reflexivity.
  - rewrite keeps_parseBlocks. reflexivity.
Qed.

(* ===================================================================== *)
(** ** Blockquotes *)
(* ===================================================================== *)

Lemma quoteSection_quoted (b : block) : quoted b (quoteSection b).
Proof.
  destruct b; try (apply quoted_other; reflexivity).
  simpl. destruct text as [|a s]; simpl.
  - apply quoted_empty.
  - apply (quoted_section (String a s)). discriminate.
Qed.

Lemma map_quoteSection_quoted (blocks : list block) :
  Forall2 quoted blocks (map quoteSection blocks).
Proof.
  induction blocks as [|b bs IH]; simpl; constructor;
    [apply quoteSection_quoted | exact IH].
Qed.

(** C4, as the code has it.  (1) When every child is a paragraph or a bare
    text token and the trial parse yields no File block, the builder returns
    one rich-text-quote block holding the rich elements of the children, or
    no block at all when there is no such element.  (2) A paragraph with
    tokens that is followed by another child contributes its elements and
    then a newline element; as last child it contributes its elements only.
    (3) Otherwise, when the per-child dispatch completes, the builder
    returns its blocks one for one: a section with a non-empty text gets the
    prefix ["> "] and has each newline replaced by a newline followed by
    ["> "]; every other block, and a section with an empty text, is
    returned as it is.  (4) A throw of the trial parse is a throw of the
    builder. *)
Theorem blockquote_blocks (env : collaborators) (tokens : list block_token)
    (d : Z) :
  (forallb isParagraphOrText tokens = true ->
   forall testBlocks,
     trialParse env tokens d = (Ok testBlocks, d) ->
     existsb isFileBlock testBlocks = false ->
     parseBlockquote env (Blockquote tokens) d =
     (Ok (match quoteElementsOf env tokens with
          | [] => []
          | _ :: _ => [RichTextBlock [RichTextQuote (quoteElementsOf env tokens)]]
          end), d)) /\
  (forall t ts next rest,
     quoteElementsOf env (Paragraph (t :: ts) :: next :: rest) =
     tokensToRichTextElements env (t :: ts)
     ++ [RichText (String "010" "") None]
     ++ quoteElementsOf env (next :: rest)) /\
  (forall t ts,
     quoteElementsOf env [Paragraph (t :: ts)] =
     tokensToRichTextElements env (t :: ts)) /\
  (forallb isParagraphOrText tokens = false \/
   (exists testBlocks,
      trialParse env tokens d = (Ok testBlocks, d) /\
      existsb isFileBlock testBlocks = true) ->
   forall raw,
     quoteChildBlocks env tokens d = (Ok raw, d) ->
     exists out,
       parseBlockquote env (Blockquote tokens) d = (Ok out, d) /\
       Forall2 quoted raw out) /\
  (forallb isParagraphOrText tokens = true ->
   forall e,
     trialParse env tokens d = (Throw e, d) ->
     parseBlockquote env (Blockquote tokens) d = (Throw e, d)).
Proof.
  split; [|split; [|split; [|split]]].
  - intros Hall testBlocks Htrial Hfile.
    rewrite parseBlockquote_unfold. unfold bind at 1.
    unfold parseSimpleBlockquote. rewrite Hall. unfold bind at 1.
    rewrite Htrial, Hfile.
    destruct (quoteElementsOf env tokens); reflexivity.
  - intros t ts next rest. simpl. rewrite <- !app_assoc. reflexivity.
  - intros t ts. simpl. rewrite !app_nil_r. reflexivity.
  - intros Hcomplex raw Hraw.
    exists (map quoteSection raw). split; [|apply map_quoteSection_quoted].
    rewrite parseBlockquote_unfold. unfold bind at 1.
    assert (E : parseSimpleBlockquote env tokens d = (Ok None, d)).
    { unfold parseSimpleBlockquote.
      destruct Hcomplex as [Hnot | [testBlocks [Htrial Hfile]]].
      - rewrite Hnot. reflexivity.
      - destruct (forallb isParagraphOrText tokens); [|reflexivity].
        unfold bind. rewrite Htrial, Hfile. reflexivity. }
    rewrite E. unfold bind. rewrite Hraw. reflexivity.
  - intros Hall e Htrial.
    rewrite parseBlockquote_unfold. unfold bind at 1.
    unfold parseSimpleBlockquote. rewrite Hall. unfold bind at 1.
    rewrite Htrial. reflexivity.
Qed.

Lemma blockquote_blocks_witness :
  parseBlockquote Sample.env
    (Blockquote [Paragraph [Text "a" "a"]; Paragraph [Strong "b" [Text "b" "b"]]])
    0%Z =
  (Ok [RichTextBlock
         [RichTextQuote
            [RichText "a" None; RichText (String "010" "") None;
             RichText "b" (Some Bold)]]], 0%Z) /\
  exists out,
    parseBlockquote Sample.env
      (Blockquote [Paragraph [Text "q" "q"; Br; Text "r" "r"]; Code "x"])
      0%Z = (Ok out, 0%Z) /\
    Forall2 quoted
      [SectionBlock "qr"; RichTextBlock [RichTextPreformatted [RichText "x" None]]]
      out.
Proof.
  split.
  - apply (proj1 (blockquote_blocks Sample.env
             [Paragraph [Text "a" "a"]; Paragraph [Strong "b" [Text "b" "b"]]]
             0%Z) eq_refl [SectionBlock "a"; SectionBlock "*b*"]);
      reflexivity.
  - apply (proj1 (proj2 (proj2 (proj2 (blockquote_blocks Sample.env
             [Paragraph [Text "q" "q"; Br; Text "r" "r"]; Code "x"] 0%Z))))).
    + left. reflexivity.
    + reflexivity.
Defined.

(** C4 as stated fails: every child (there is none) of an empty blockquote
    is a paragraph, the trial parse yields no File block, and the builder
    returns no block at all rather than one rich-text-quote block. *)
Lemma empty_blockquote_yields_no_block :
  forallb isParagraphOrText [] = true /\
  trialParse Sample.env [] 0%Z = (Ok [], 0%Z) /\
  parseBlocks Sample.env [Blockquote []] Sample.options 0%Z = (Ok [], 0%Z).
Proof. repeat split. Qed.

(** In the complex handling, a section whose text is empty is returned
    without the prefix. *)
Example empty_section_not_prefixed :
  parseBlocks Sample.env [Blockquote [Paragraph [Br]; Code "x"]]
    Sample.options 0%Z =
  (Ok [SectionBlock "";
       RichTextBlock [RichTextPreformatted [RichText "x" None]]], 0%Z).
Proof. vm_compute. reflexivity. Qed.

(** The complex handling on a multi-line paragraph next to a code block. *)
Example quoted_section_prefixed :
  parseBlocks Sample.env
    [Blockquote [Paragraph [Text "one" "one"; Text (String "010" "two")
                                               (String "010" "two")];
                 Code "x"]]
    Sample.options 0%Z =
  (Ok [SectionBlock ("> one" ++ String "010" "> two");
       RichTextBlock [RichTextPreformatted [RichText "x" None]]], 0%Z).
Proof. vm_compute. reflexivity. Qed.

(* ===================================================================== *)
(** ** Further properties: extensions and file names *)
(* ===================================================================== *)

Lemma match_extension_inv (s ext : string) :
  Str.match_extension s = Some ext ->
  exists p, s = (p ++ String "." ext)%string /\ Str.alnum_to_end ext = true.
Proof.
  induction s as [|a r IH]; simpl; [discriminate|].
  destruct (Ascii.eqb_spec a ".") as [->|Ha]; simpl.
  - destruct (Str.alnum_to_end r) eqn:E.
    + intros H. injection H as <-. exists "". split; [reflexivity|exact E].
    + intros H. destruct (IH H) as [p [-> Hp]].
      exists (String "." p). split; [reflexivity|exact Hp].
  - intros H. destruct (IH H) as [p [-> Hp]].
    exists (String a p). split; [reflexivity|exact Hp].
Qed.

(** X1.  [detectFileExtension] returns an extension exactly when the path
    (the input up to its first [?] or [#]) ends in a dot followed by one or
    more ASCII letters and digits, and the extension is that ending,
    lower-cased. *)
Theorem detectFileExtension_iff (s e : string) :
  detectFileExtension s = Some e <->
  exists p ext,
    pathname s = (p ++ String "." ext)%string /\
    Str.alnum_to_end ext = true /\
    e = Str.toLowerCase ext.
Proof.
  unfold detectFileExtension. split.
  - destruct (Str.match_extension (pathname s)) as [ext|] eqn:E;
      [|discriminate].
    intros H. injection H as <-.
    destruct (match_extension_inv _ _ E) as [p [Hp Ha]].
    exists p, ext. repeat split; assumption.
  - intros [p [ext [Hp [Ha ->]]]]. rewrite Hp.
    rewrite match_extension_suffix by exact Ha. reflexivity.
Qed.

Lemma toLowerCase_alnum (ext : string) :
  Str.all_alnum ext = true ->
  all_chars is_lower_or_digit (Str.toLowerCase ext) = true.
Proof.
  induction ext as [|a s IH]; simpl; [reflexivity|].
  intros H. apply andb_prop in H. destruct H as [Ha Hs].
  rewrite (IH Hs), andb_true_r. clear IH Hs.
  destruct a as [[] [] [] [] [] [] [] []]; vm_compute in Ha |- *;
    first [reflexivity | discriminate].
Qed.

(** X2.  An extension returned by [detectFileExtension] is never empty and
    consists of lower-case ASCII letters and digits only, so that the
    look-up in the lower-case allow-list does not depend on the case in the
    link. *)
Theorem detectFileExtension_shape (s e : string) :
  detectFileExtension s = Some e ->
  e <> "" /\ all_chars is_lower_or_digit e = true.
Proof.
  unfold detectFileExtension.
  destruct (Str.match_extension (pathname s)) as [ext|] eqn:E;
    [|discriminate].
  intros H. injection H as <-.
  destruct (match_extension_inv _ _ E) as [p [_ Ha]].
  destruct ext as [|a r]; [discriminate|]. split; [discriminate|].
  apply toLowerCase_alnum. exact Ha.
Qed.

Lemma detectFileExtension_shape_witness :
  detectFileExtension "https://example.com/Report.PdF?x=1" = Some "pdf" /\
  "pdf" <> "" /\ all_chars is_lower_or_digit "pdf" = true.
Proof.
  split; [reflexivity|].
  apply (detectFileExtension_shape "https://example.com/Report.PdF?x=1" "pdf").
  reflexivity.
Defined.

Lemma contains_before_same (c : ascii) (s : string) :
  Str.contains c (Str.before c s) = false.
Proof.
  induction s as [|a r IH]; simpl; [reflexivity|].
  destruct (Ascii.eqb_spec a c) as [->|Ha]; [reflexivity|].
  unfold Str.contains. simpl. fold (Str.contains c (Str.before c r)).
  rewrite IH, orb_false_r. apply Ascii.eqb_neq. congruence.
Qed.

Lemma contains_before (c c' : ascii) (s : string) :
  Str.contains c s = false -> Str.contains c (Str.before c' s) = false.
Proof.
  induction s as [|a r IH]; simpl; [reflexivity|].
  unfold Str.contains. simpl. fold (Str.contains c r).
  intros H. apply orb_false_elim in H. destruct H as [H1 H2].
  destruct (Ascii.eqb a c'); [reflexivity|].
  simpl. fold (Str.contains c (Str.before c' r)).
  rewrite H1, (IH H2). reflexivity.
Qed.

Lemma contains_after_last (c c' : ascii) (s : string) :
  Str.contains c s = false -> Str.contains c (Str.after_last c' s) = false.
Proof.
  induction s as [|a r IH]; simpl; [reflexivity|].
  intros H. pose proof H as H'.
  unfold Str.contains in H'. simpl in H'. fold (Str.contains c r) in H'.
  apply orb_false_elim in H'. destruct H' as [H1 H2].
  destruct (Str.contains c' r); [apply IH; exact H2|].
  destruct (Ascii.eqb a c'); assumption.
Qed.

Lemma contains_after_last_same (c : ascii) (s : string) :
  Str.contains c (Str.after_last c s) = false.
Proof.
  induction s as [|a r IH]; simpl; [reflexivity|].
  destruct (Str.contains c r) eqn:E; [exact IH|].
  destruct (Ascii.eqb_spec a c) as [->|Ha]; [exact E|].
  unfold Str.contains. simpl. fold (Str.contains c r).
  rewrite E, orb_false_r. apply Ascii.eqb_neq. congruence.
Qed.

Lemma pathname_clean (s : string) :
  Str.contains "?" (pathname s) = false /\
  Str.contains "#" (pathname s) = false.
Proof.
  unfold pathname. split.
  - apply contains_before. apply contains_before_same.
  - apply contains_before_same.
Qed.

(** X3.  The name [extractFileName] returns is never empty and holds no
    slash, question mark or hash: it is one path segment, or the fixed
    default. *)
Theorem extractFileName_segment (s : string) :
  extractFileName s <> "" /\
  Str.contains "/" (extractFileName s) = false /\
  Str.contains "?" (extractFileName s) = false /\
  Str.contains "#" (extractFileName s) = false.
Proof.
  split; [apply extractFileName_not_empty|].
  unfold extractFileName, Str.or_else.
  destruct (pathname_clean s) as [Hq Hf].
  destruct (Str.after_last "/" (pathname s)) eqn:E; simpl.
  - repeat split.
  - rewrite <- E. repeat split.
    + apply contains_after_last_same.
    + apply contains_after_last. exact Hq.
    + apply contains_after_last. exact Hf.
Qed.

Lemma after_last_app (c : ascii) (p t : string) :
  Str.contains c t = false ->
  t <> "" ->
  exists stem, Str.after_last c (p ++ t) = (stem ++ t)%string.
Proof.
  intros Ht Hne. induction p as [|a r IH].
  - exists "". simpl.
    destruct t as [|b u]; [congruence|]. simpl.
    pose proof Ht as H. unfold Str.contains in H. simpl in H.
    fold (Str.contains c u) in H. apply orb_false_elim in H.
    destruct H as [H1 H2]. rewrite H2.
    rewrite Ascii.eqb_sym, H1. reflexivity.
  - simpl. destruct IH as [stem IH].
    destruct (Str.contains c (r ++ t)) eqn:E.
    + exists stem. exact IH.
    + destruct (Ascii.eqb a c).
      * exists r. reflexivity.
      * exists (String a r). reflexivity.
Qed.

(** X4.  When a URL or display text has an extension, the name extracted
    from it is its real last path segment and ends in that extension as it
    is written there: the default ["Document"] is never what names a link
    that was classified by its own extension. *)
Theorem extractFileName_keeps_extension (s e : string) :
  detectFileExtension s = Some e ->
  extractFileName s = Str.after_last "/" (pathname s) /\
  exists stem ext,
    extractFileName s = (stem ++ String "." ext)%string /\
    Str.alnum_to_end ext = true /\
    Str.toLowerCase ext = e.
Proof.
  unfold detectFileExtension.
  destruct (Str.match_extension (pathname s)) as [ext|] eqn:Em;
    [|discriminate].
  intros H. injection H as <-.
  destruct (match_extension_inv _ _ Em) as [p [Hp Ha]].
  assert (Hall : Str.all_alnum ext = true)
    by (destruct ext; [discriminate|exact Ha]).
  assert (Hs : Str.contains "/" (String "." ext) = false).
  { unfold Str.contains. simpl. fold (Str.contains "/" ext).
    apply contains_alnum; [|exact Hall].
    intros a Hal. destruct a as [[] [] [] [] [] [] [] []];
      vm_compute in Hal |- *; first [reflexivity | discriminate]. }
  destruct (after_last_app "/" p (String "." ext) Hs) as [stem Hstem];
    [discriminate|].
  unfold extractFileName. rewrite Hp, Hstem.
  assert (E : Str.or_else (stem ++ String "." ext) "Document" =
              (stem ++ String "." ext)%string)
    by (destruct stem; reflexivity).
  rewrite E. split; [reflexivity|].
  exists stem, ext. repeat split. exact Ha.
Qed.

Lemma extractFileName_keeps_extension_witness :
  extractFileName "https://example.com/a/b.tar.GZ#top" = "b.tar.GZ".
Proof.
  rewrite (proj1 (extractFileName_keeps_extension
                    "https://example.com/a/b.tar.GZ#top" "gz" eq_refl)).
  reflexivity.
Defined.

(* ===================================================================== *)
(** ** Further properties: paragraphs *)
(* ===================================================================== *)

Section MoreParagraphFacts.
Variable env : collaborators.

Lemma nth_error_last_split (l : list block) :
  forall a b,
    nth_error (a :: l) (length l) = Some b ->
    a :: l = firstn (length l) (a :: l) ++ [b].
Proof.
  induction l as [|x l IH]; intros a b H.
  - simpl in H. injection H as <-. reflexivity.
  - simpl in H. apply IH in H.
    change (firstn (length (x :: l)) (a :: x :: l))
      with (a :: firstn (length l) (x :: l)).
    simpl. f_equal. exact H.
Qed.

Lemma last_block_Some (l : list block) (b : block) :
  last_block l = Some b -> l = firstn (length l - 1) l ++ [b].
Proof.
  unfold last_block. destruct l as [|a r]; [discriminate|].
  replace (length (a :: r) - 1) with (length r) by (simpl; lia).
  apply nth_error_last_split.
Qed.

Lemma step_effect_length accumulator accumulator' :
  step_effect accumulator accumulator' ->
  length accumulator <= length accumulator' <= length accumulator + 1.
Proof.
  intros H. destruct H.
  - lia.
  - rewrite length_app. simpl. lia.
  - apply last_block_Some in H. unfold set_last.
    rewrite length_app, length_firstn. simpl.
    assert (length accumulator >= 1).
    { rewrite H, length_app. simpl. lia. }
    lia.
Qed.

Lemma reduce_phrasing_length tokens :
  forall accumulator d,
    length (fst (snd (reduce_phrasing env tokens (accumulator, d))))
    <= length accumulator + length tokens.
Proof.
  induction tokens as [|t rest IH]; intros accumulator d.
  - simpl. lia.
  - change (reduce_phrasing env (t :: rest))
      with (bind (parsePhrasingContent env t)
              (fun _ => reduce_phrasing env rest)).
    unfold bind.
    pose proof (parsePhrasingContent_effect env t accumulator d) as [He _].
    apply step_effect_length in He.
    destruct (parsePhrasingContent env t (accumulator, d))
      as [[u|e] [a' d']]; simpl in He |- *.
    + specialize (IH a' d'). lia.
    + lia.
Qed.

End MoreParagraphFacts.

(** X5.  A paragraph never yields more blocks than it has inline tokens:
    each token adds at most one block to the output list. *)
Theorem parseParagraph_block_count (env : collaborators)
    (tokens : list token) (d : Z) (blocks : list block) :
  fst (parseParagraph env tokens d) = Ok blocks ->
  length blocks <= length tokens.
Proof.
  unfold parseParagraph. intros H.
  pose proof (reduce_phrasing_length env tokens [] d) as L.
  destruct (reduce_phrasing env tokens ([], d)) as [[u|e] [a' d']];
    simpl in H, L; [|discriminate].
  injection H as <-. exact L.
Qed.

Lemma parseParagraph_block_count_witness :
  length [SectionBlock "see "; FileBlock "a.pdf"; SectionBlock " and more"]
  <= 4.
Proof.
  apply (parseParagraph_block_count Sample.env
           [Text "see " "see ";
            Link "https://example.com/a.pdf" "it" [Text "it" "it"];
            Text " and" " and"; Text " more" " more"]
           0%Z).
  reflexivity.
Defined.

Section ParagraphOutcomes.
Variable env : collaborators.

Lemma render_and_add_result element accumulator d :
  (fst (render_and_add env element (accumulator, d)) = Ok tt /\
   (d + Z.of_nat (nesting element) <= maxDepth env)%Z) \/
  (render_and_add env element (accumulator, d)
   = (Throw RecursionLimitError, (accumulator, d)) /\
   (maxDepth env < d + Z.of_nat (nesting element))%Z).
Proof.
  rewrite render_and_add_outcome. unfold mrkdwn_outcome.
  destruct (Z.ltb_spec (maxDepth env) (d + Z.of_nat (nesting element))).
  - right. split; [reflexivity|assumption].
  - left. rewrite addMrkdwn_added. split; [reflexivity|assumption].
Qed.

(** A call of the accumulation step ends normally or with the
    recursion-limit error; the failures of the builders are caught. *)
Lemma parsePhrasingContent_result element accumulator d :
  fst (parsePhrasingContent env element (accumulator, d)) = Ok tt \/
  (fst (parsePhrasingContent env element (accumulator, d))
   = Throw RecursionLimitError /\
   (maxDepth env < d + Z.of_nat (nesting element))%Z).
Proof.
  assert (R : forall t,
             fst (render_and_add env t (accumulator, d)) = Ok tt \/
             (fst (render_and_add env t (accumulator, d))
              = Throw RecursionLimitError /\
              (maxDepth env < d + Z.of_nat (nesting t))%Z)).
  { intros t. destruct (render_and_add_result t accumulator d) as [[H _]|[H L]].
    - left. exact H.
    - right. rewrite H. split; [reflexivity|exact L]. }
  destruct element; try exact (R _).
  - unfold parsePhrasingContent.
    match goal with
    | |- context [if ?c then _ else _] => destruct c
    end; [|exact (R _)].
    unfold try_catch, bind, lift.
    match goal with
    | |- context [file env ?n] => destruct (file env n)
    end; [left; reflexivity | exact (R _)].
  - left. unfold parsePhrasingContent, try_catch, bind, lift.
    match goal with
    | |- context [image env ?u ?a ?t] => destruct (image env u a t)
    end; reflexivity.
Qed.

Lemma reduce_phrasing_result tokens :
  forall accumulator d,
    (Forall (fun t => (d + Z.of_nat (nesting t) <= maxDepth env)%Z) tokens ->
     fst (reduce_phrasing env tokens (accumulator, d)) = Ok tt) /\
    (forall e, fst (reduce_phrasing env tokens (accumulator, d)) = Throw e ->
               e = RecursionLimitError).
Proof.
  induction tokens as [|t rest IH]; intros accumulator d.
  - split; [reflexivity | discriminate].
  - change (reduce_phrasing env (t :: rest))
      with (bind (parsePhrasingContent env t)
              (fun _ => reduce_phrasing env rest)).
    unfold bind.
    pose proof (parsePhrasingContent_result t accumulator d) as R.
    pose proof (proj2 (parsePhrasingContent_effect env t accumulator d)) as D.
    destruct (parsePhrasingContent env t (accumulator, d))
      as [[u|e0] [a' d']]; simpl in R, D; subst d'.
    + destruct (IH a' d) as [IH1 IH2]. split.
      * intros F. inversion F; subst. apply IH1. assumption.
      * exact IH2.
    + destruct R as [R|[R L]]; [discriminate|]. injection R as ->. split.
      * intros F. inversion F; subst. lia.
      * simpl. intros e H. congruence.
Qed.

End ParagraphOutcomes.

(** X6.  The only error a paragraph can raise is the recursion-limit error:
    a failure of the image or file builder is caught inside the walk.  When
    every inline token nests within the ceiling the paragraph returns a
    block list, whatever the builders do. *)
Theorem parseParagraph_errors (env : collaborators) (tokens : list token)
    (d : Z) :
  (forall e, fst (parseParagraph env tokens d) = Throw e ->
             e = RecursionLimitError) /\
  (Forall (fun t => (d + Z.of_nat (nesting t) <= maxDepth env)%Z) tokens ->
   exists blocks, parseParagraph env tokens d = (Ok blocks, d)).
Proof.
  destruct (reduce_phrasing_result env tokens [] d) as [R1 R2].
  pose proof (reduce_phrasing_depth env tokens [] d) as D.
  unfold parseParagraph.
  destruct (reduce_phrasing env tokens ([], d)) as [[u|e0] [a' d']];
    simpl in R1, R2, D; subst d'; split.
  - discriminate.
  - intros _. exists a'. reflexivity.
  - simpl. intros e H. injection H as <-. apply R2. reflexivity.
  - intros F. specialize (R1 F). discriminate.
Qed.

Lemma parseParagraph_errors_witness :
  exists blocks,
    parseParagraph Sample.env
      [Image "javascript:void(0)" None "bad"; Del "x" [Text "x" "x"]] 0%Z
    = (Ok blocks, 0%Z).
Proof.
  apply (proj2 (parseParagraph_errors Sample.env
                  [Image "javascript:void(0)" None "bad";
                   Del "x" [Text "x" "x"]] 0%Z)).
  repeat constructor; vm_compute; discriminate.
Defined.

Lemma no_adjacent_snoc2 (l : list block) (x b : block) :
  no_adjacent_sections (l ++ [x; b]) =
  no_adjacent_sections (l ++ [x])
  && negb (isSectionBlock x && isSectionBlock b).
Proof.
  induction l as [|a r IH].
  - simpl. destruct (isSectionBlock x), (isSectionBlock b); reflexivity.
  - change ((a :: r) ++ [x; b]) with (a :: (r ++ [x; b])).
    change ((a :: r) ++ [x]) with (a :: (r ++ [x])).
    destruct r as [|y r'].
    + simpl. destruct (isSectionBlock a), (isSectionBlock x),
        (isSectionBlock b); reflexivity.
    + change (no_adjacent_sections (a :: (y :: r') ++ [x; b]))
        with (negb (isSectionBlock a && isSectionBlock y)
              && no_adjacent_sections ((y :: r') ++ [x; b])).
      change (no_adjacent_sections (a :: (y :: r') ++ [x]))
        with (negb (isSectionBlock a && isSectionBlock y)
              && no_adjacent_sections ((y :: r') ++ [x])).
      rewrite IH. apply andb_assoc.
Qed.

Lemma no_adjacent_snoc_kind (l : list block) (x y : block) :
  isSectionBlock x = isSectionBlock y ->
  no_adjacent_sections (l ++ [x]) = no_adjacent_sections (l ++ [y]).
Proof.
  intros H. induction l as [|a r IH]; [reflexivity|].
  change ((a :: r) ++ [x]) with (a :: (r ++ [x])).
  change ((a :: r) ++ [y]) with (a :: (r ++ [y])).
  destruct r as [|z r'].
  - simpl. rewrite H. reflexivity.
  - change (no_adjacent_sections (a :: (z :: r') ++ [x]))
      with (negb (isSectionBlock a && isSectionBlock z)
            && no_adjacent_sections ((z :: r') ++ [x])).
    change (no_adjacent_sections (a :: (z :: r') ++ [y]))
      with (negb (isSectionBlock a && isSectionBlock z)
            && no_adjacent_sections ((z :: r') ++ [y])).
    rewrite IH. reflexivity.
Qed.

Lemma set_last_snoc (l : list block) (x b : block) :
  set_last (l ++ [x]) b = l ++ [b].
Proof.
  unfold set_last. rewrite length_app. simpl.
  replace (length l + 1 - 1) with (length l + 0) by lia.
  rewrite firstn_app_2. simpl. rewrite app_nil_r. reflexivity.
Qed.

Lemma list_snoc_cases (l : list block) :
  l = [] \/ exists l' x, l = l' ++ [x].
Proof.
  destruct l as [|a r]; [left; reflexivity|]. right.
  destruct (exists_last (l := a :: r)) as [l' [x H]]; [discriminate|].
  exists l', x. exact H.
Qed.

Lemma no_adjacent_push (l : list block) (b : block) :
  isSectionBlock b = false ->
  no_adjacent_sections l = true ->
  no_adjacent_sections (l ++ [b]) = true.
Proof.
  intros Hb Hl. destruct (list_snoc_cases l) as [->|[l' [x ->]]];
    [reflexivity|].
  rewrite <- app_assoc. simpl app. rewrite no_adjacent_snoc2, Hl, Hb.
  rewrite andb_false_r. reflexivity.
Qed.

Lemma no_adjacent_added env content (l : list block) :
  no_adjacent_sections l = true ->
  no_adjacent_sections (added env content l) = true.
Proof.
  intros Hl. unfold added.
  destruct (list_snoc_cases l) as [->|[l' [x ->]]]; [reflexivity|].
  rewrite last_block_snoc.
  destruct x;
    try (rewrite <- app_assoc; simpl app; rewrite no_adjacent_snoc2, Hl;
         reflexivity).
  rewrite set_last_snoc.
  rewrite (no_adjacent_snoc_kind l' _ (SectionBlock text)) by reflexivity.
  exact Hl.
Qed.

Section Adjacency.
Variable env : collaborators.
Hypothesis image_not_section :
  forall url alt title b,
    image env url alt title = Ok b -> isSectionBlock b = false.
Hypothesis file_not_section :
  forall name b, file env name = Ok b -> isSectionBlock b = false.

Lemma render_and_add_adjacent element accumulator d :
  no_adjacent_sections accumulator = true ->
  no_adjacent_sections
    (fst (snd (render_and_add env element (accumulator, d)))) = true.
Proof.
  intros H. rewrite render_and_add_outcome.
  destruct (mrkdwn_outcome env element d); [|exact H].
  rewrite addMrkdwn_added. simpl. apply no_adjacent_added. exact H.
Qed.

Lemma parsePhrasingContent_adjacent element accumulator d :
  no_adjacent_sections accumulator = true ->
  no_adjacent_sections
    (fst (snd (parsePhrasingContent env element (accumulator, d)))) = true.
Proof.
  intros H.
  destruct element; try exact (render_and_add_adjacent _ accumulator d H).
  - unfold parsePhrasingContent.
    match goal with
    | |- context [if ?c then _ else _] => destruct c
    end; [|exact (render_and_add_adjacent _ accumulator d H)].
    unfold try_catch, bind, lift.
    match goal with
    | |- context [file env ?n] => destruct (file env n) as [b|e] eqn:E
    end.
    + simpl. apply no_adjacent_push; [|exact H].
      eapply file_not_section. exact E.
    + exact (render_and_add_adjacent _ accumulator d H).
  - unfold parsePhrasingContent, try_catch, bind, lift.
    match goal with
    | |- context [image env ?u ?a ?t] =>
        destruct (image env u a t) as [b|e] eqn:E
    end; simpl; [|exact H].
    apply no_adjacent_push; [|exact H].
    eapply image_not_section. exact E.
Qed.

Lemma reduce_phrasing_adjacent tokens :
  forall accumulator d,
    no_adjacent_sections accumulator = true ->
    no_adjacent_sections
      (fst (snd (reduce_phrasing env tokens (accumulator, d)))) = true.
Proof.
  induction tokens as [|t rest IH]; intros accumulator d H; [exact H|].
  change (reduce_phrasing env (t :: rest))
    with (bind (parsePhrasingContent env t)
            (fun _ => reduce_phrasing env rest)).
  unfold bind.
  pose proof (parsePhrasingContent_adjacent t accumulator d H) as A.
  destruct (parsePhrasingContent env t (accumulator, d))
    as [[u|e] [a' d']]; simpl in A |- *; [apply IH|]; exact A.
Qed.

(** X7.  When the image and file builders return blocks that are not
    sections, the blocks of a paragraph never hold two sections side by
    side: consecutive styled text always ends up in one section, and
    sections only alternate with image and file blocks. *)
Theorem parseParagraph_no_adjacent_sections (tokens : list token) (d : Z)
    (blocks : list block) :
  fst (parseParagraph env tokens d) = Ok blocks ->
  no_adjacent_sections blocks = true.
Proof.
  unfold parseParagraph. intros H.
  pose proof (reduce_phrasing_adjacent tokens [] d eq_refl) as A.
  destruct (reduce_phrasing env tokens ([], d)) as [[u|e] [a' d']];
    simpl in H, A; [|discriminate].
  injection H as <-. exact A.
Qed.

End Adjacency.

Lemma parseParagraph_no_adjacent_sections_witness :
  no_adjacent_sections
    [SectionBlock "a_b_"; FileBlock "r.pdf"; SectionBlock "c`d`"] = true.
Proof.
  apply (parseParagraph_no_adjacent_sections Sample.env
           ltac:(intros url alt title b; unfold Sample.env; simpl;
                 unfold Sample.image_builder;
                 destruct (Sample.valid_url url); intros H;
                 [injection H as <-; reflexivity | discriminate])
           ltac:(intros name b; unfold Sample.env; simpl; unfold Slack.file;
                 destruct (Str.is_empty name); intros H;
                 [discriminate | injection H as <-; reflexivity])
           [Text "a" "a"; Em "b" [Text "b" "b"];
            Link "https://example.com/r.pdf" "r" [Text "r" "r"];
            Text "c" "c"; Codespan "`d`" "d"]
           0%Z).
  reflexivity.
Defined.

Section MergeFacts.
Variable env : collaborators.

Lemma parsePhrasingContent_rendered element accumulator d :
  isRendered element = true ->
  parsePhrasingContent env element (accumulator, d) =
  render_and_add env element (accumulator, d).
Proof.
  destruct element; try discriminate; try reflexivity.
  simpl isRendered. intros H. apply negb_true_iff in H.
  unfold parsePhrasingContent.
  unfold fileExtensionOf, linkTextOf in H. rewrite H. reflexivity.
Qed.

Lemma reduce_phrasing_rendered tokens :
  forall text d,
    Forall (fun x => isRendered x = true) tokens ->
    Forall (fun x => (d + Z.of_nat (nesting x) <= maxDepth env)%Z) tokens ->
    reduce_phrasing env tokens ([SectionBlock text], d) =
    (Ok tt,
     ([SectionBlock (text ++ Str.join (map (spec_render env) tokens))], d)).
Proof.
  induction tokens as [|t rest IH]; intros text d Hk Hd.
  - simpl. unfold ret. rewrite append_empty_r. reflexivity.
  - inversion Hk as [|? ? Hk1 Hk2]; inversion Hd as [|? ? Hd1 Hd2]; subst.
    change (reduce_phrasing env (t :: rest))
      with (bind (parsePhrasingContent env t)
              (fun _ => reduce_phrasing env rest)).
    unfold bind. rewrite parsePhrasingContent_rendered by assumption.
    rewrite render_and_add_outcome. unfold mrkdwn_outcome.
    destruct (Z.ltb_spec (maxDepth env) (d + Z.of_nat (nesting t))); [lia|].
    rewrite addMrkdwn_added. unfold added. simpl last_block.
    cbv beta iota.
    change (set_last [SectionBlock text]
              (SectionBlock (text ++ spec_render env t)))
      with [SectionBlock (text ++ spec_render env t)].
    rewrite IH by assumption. simpl map. simpl Str.join.
    rewrite append_assoc. reflexivity.
Qed.

Lemma reduce_phrasing_images tokens :
  forall accumulator d,
    Forall (fun x => isImage x = true) tokens ->
    reduce_phrasing env tokens (accumulator, d) =
    (Ok tt, (accumulator ++ flat_map (imageBlocks env) tokens, d)).
Proof.
  induction tokens as [|t rest IH]; intros accumulator d H.
  - simpl. unfold ret. rewrite app_nil_r. reflexivity.
  - inversion H as [|? ? H1 H2]; subst.
    change (reduce_phrasing env (t :: rest))
      with (bind (parsePhrasingContent env t)
              (fun _ => reduce_phrasing env rest)).
    destruct t; try discriminate.
    unfold bind, parsePhrasingContent, try_catch, lift.
    simpl flat_map. unfold imageBlocks at 1.
    match goal with
    | |- context [image env ?u ?a ?t] => destruct (image env u a t)
    end; simpl.
    + rewrite IH by assumption. rewrite <- app_assoc. reflexivity.
    + rewrite IH by assumption. reflexivity.
Qed.

End MergeFacts.

(** X8.  Every run of inline tokens that holds no image and no link
    classified as a file (text, emphasis, strong, strike, code spans, line
    breaks, inline markup, ordinary links) and nests within the ceiling is
    merged into exactly one section, whose text is the markup of the tokens
    in order, only the first of them passing through the builder's
    truncation. *)
Theorem parseParagraph_rendered_tokens_merge (env : collaborators)
    (t : token) (rest : list token) (d : Z) :
  Forall (fun x => isRendered x = true) (t :: rest) ->
  Forall (fun x => (d + Z.of_nat (nesting x) <= maxDepth env)%Z) (t :: rest) ->
  parseParagraph env (t :: rest) d =
  (Ok [SectionBlock (safeTruncate env (spec_render env t) 3000
                     ++ Str.join (map (spec_render env) rest))], d).
Proof.
  intros Hk Hd.
  inversion Hk as [|? ? Hk1 Hk2]; inversion Hd as [|? ? Hd1 Hd2]; subst.
  unfold parseParagraph.
  change (reduce_phrasing env (t :: rest))
    with (bind (parsePhrasingContent env t)
            (fun _ => reduce_phrasing env rest)).
  unfold bind. rewrite parsePhrasingContent_rendered by assumption.
  rewrite render_and_add_outcome. unfold mrkdwn_outcome.
  destruct (Z.ltb_spec (maxDepth env) (d + Z.of_nat (nesting t))); [lia|].
  rewrite addMrkdwn_added. unfold added. simpl last_block. simpl app.
  cbv beta iota. unfold Slack.section.
  rewrite reduce_phrasing_rendered by assumption.
  reflexivity.
Qed.

Lemma parseParagraph_rendered_tokens_merge_witness :
  parseParagraph Sample.env
    [Del "a" [Text "a" "a"]; Br; Codespan "`b`" "b";
     Link "https://example.com/page" "c" [Text "c" "c"]; HTML "<i>" "<i>"]
    0%Z =
  (Ok [SectionBlock "~a~`b`<https://example.com/page|c> "], 0%Z).
Proof.
  apply (parseParagraph_rendered_tokens_merge Sample.env
           (Del "a" [Text "a" "a"])
           [Br; Codespan "`b`" "b";
            Link "https://example.com/page" "c" [Text "c" "c"];
            HTML "<i>" "<i>"] 0%Z).
  - repeat constructor.
  - repeat constructor; vm_compute; discriminate.
Defined.

(** X9.  A paragraph made of images only never throws: it yields, in
    order, the block of every image the builder accepts, and an image the
    builder rejects leaves no trace. *)
Theorem parseParagraph_images (env : collaborators) (tokens : list token)
    (d : Z) :
  Forall (fun x => isImage x = true) tokens ->
  parseParagraph env tokens d =
  (Ok (flat_map (imageBlocks env) tokens), d).
Proof.
  intros H. unfold parseParagraph.
  rewrite (reduce_phrasing_images env tokens [] d H). reflexivity.
Qed.

Lemma parseParagraph_images_witness :
  parseParagraph Sample.env
    [Image "url" (Some "title") "alt"; Image "ftp://x/y.png" None "no";
     Image "url" None ""] 0%Z =
  (Ok [ImageBlock "url" "alt" (Some "title"); ImageBlock "url" "url" None],
   0%Z).
Proof.
  apply (parseParagraph_images Sample.env
           [Image "url" (Some "title") "alt"; Image "ftp://x/y.png" None "no";
            Image "url" None ""] 0%Z).
  repeat constructor.
Defined.

(* ===================================================================== *)
(** ** Further properties: tables, rich elements and lists *)
(* ===================================================================== *)

Lemma columnSettings_started (l : list (option alignment))
    (started : list column_setting) :
  started <> [] ->
  fold_left columnSettingsStep l started = started ++ map setting_of l.
Proof.
  revert started. induction l as [|a l IH]; intros started H; simpl.
  - rewrite app_nil_r. reflexivity.
  - assert (E : columnSettingsStep started a = started ++ [setting_of a]).
    { unfold columnSettingsStep.
      destruct started as [|s st]; [congruence|].
      destruct a as [[]|]; reflexivity. }
    rewrite E, IH.
    + rewrite <- app_assoc. reflexivity.
    + destruct started; [congruence | discriminate].
Qed.

Lemma columnSettings_fresh (l : list (option alignment)) :
  fold_left columnSettingsStep l [] = map setting_of (drop_leading_defaults l).
Proof.
  induction l as [|a l IH]; [reflexivity|].
  destruct a as [[]|]; simpl; try exact IH;
    rewrite columnSettings_started by discriminate; reflexivity.
Qed.

Lemma columnSettingsOf_fresh (align : list (option alignment)) :
  columnSettingsOf align =
  map setting_of (drop_leading_defaults (firstn 20 align)).
Proof. unfold columnSettingsOf. apply columnSettings_fresh. Qed.

Lemma drop_leading_defaults_length (l : list (option alignment)) :
  length (drop_leading_defaults l) <= length l.
Proof.
  induction l as [|a l IH]; simpl; [lia|].
  destruct (is_default a); simpl; lia.
Qed.

Lemma drop_leading_defaults_skipn (l : list (option alignment)) :
  drop_leading_defaults l =
  skipn (length l - length (drop_leading_defaults l)) l.
Proof.
  induction l as [|a l IH]; [reflexivity|].
  cbn [drop_leading_defaults]. destruct (is_default a).
  - pose proof (drop_leading_defaults_length l) as L.
    replace (length (a :: l) - length (drop_leading_defaults l))
      with (S (length l - length (drop_leading_defaults l)))
      by (cbn [length]; lia).
    exact IH.
  - rewrite Nat.sub_diag. reflexivity.
Qed.

Lemma leading_defaults_are_default (l : list (option alignment)) :
  forallb is_default
    (firstn (length l - length (drop_leading_defaults l)) l) = true.
Proof.
  induction l as [|a l IH]; [reflexivity|].
  cbn [drop_leading_defaults]. destruct (is_default a) eqn:E.
  - pose proof (drop_leading_defaults_length l) as L.
    replace (length (a :: l) - length (drop_leading_defaults l))
      with (S (length l - length (drop_leading_defaults l)))
      by (cbn [length]; lia).
    simpl. rewrite E, IH. reflexivity.
  - rewrite Nat.sub_diag. reflexivity.
Qed.

(** X10.  The column settings of a markdown table are its alignments, cut
    to the first twenty columns, with the leading columns of default
    alignment removed and every later default column turned into an empty
    entry.  Entry [i] of the list therefore describes column [shift + i],
    where [shift] is the number of columns the list is short of, all of
    them of default alignment. *)
Theorem columnSettingsOf_closed_form (align : list (option alignment)) :
  columnSettingsOf align =
  map setting_of (drop_leading_defaults (firstn 20 align)) /\
  let shift := length (firstn 20 align) - length (columnSettingsOf align) in
  forallb is_default (firstn shift (firstn 20 align)) = true /\
  forall i,
    nth_error (columnSettingsOf align) i =
    option_map setting_of (nth_error (firstn 20 align) (shift + i)).
Proof.
  split; [apply columnSettingsOf_fresh|].
  rewrite columnSettingsOf_fresh, length_map. cbv zeta. split.
  - apply leading_defaults_are_default.
  - intros i. rewrite nth_error_map.
    rewrite (drop_leading_defaults_skipn (firstn 20 align)) at 1.
    rewrite nth_error_skipn. reflexivity.
Qed.

Lemma drop_leading_defaults_nil (l : list (option alignment)) :
  drop_leading_defaults l = [] <-> forallb is_default l = true.
Proof.
  induction l as [|a l IH]; simpl; [tauto|].
  destruct (is_default a); simpl; [exact IH|].
  split; discriminate.
Qed.

Lemma drop_leading_defaults_head (l : list (option alignment)) a r :
  drop_leading_defaults l = a :: r -> is_default a = false.
Proof.
  induction l as [|b l IH]; simpl; [discriminate|].
  destruct (is_default b) eqn:E; [exact IH|].
  intros H. injection H as <- _. exact E.
Qed.

(** X11.  The settings list never has more than twenty entries, nor more
    than the table has columns; it is empty, and the table builder is then
    given no settings at all, exactly when each of the first twenty columns
    has the default alignment; and when it is not empty its first entry
    carries an alignment. *)
Theorem columnSettings_bounds (env : collaborators)
    (header : list cell_token) (rows : list (list cell_token))
    (align : list (option alignment)) :
  length (columnSettingsOf align) <= 20 /\
  length (columnSettingsOf align) <= length align /\
  (columnSettingsOf align = [] <->
   forallb is_default (firstn 20 align) = true) /\
  (forallb is_default (firstn 20 align) = true ->
   parseTable env header rows align =
   table env (fst (parseTableRowsToBlocks env header rows align)) None) /\
  (forall s rest, columnSettingsOf align = s :: rest -> s <> None).
Proof.
  rewrite columnSettingsOf_fresh.
  pose proof (drop_leading_defaults_length (firstn 20 align)) as L.
  pose proof (firstn_le_length 20 align) as L1.
  assert (L2 : length (firstn 20 align) <= length align)
    by (rewrite length_firstn; lia).
  split; [rewrite length_map; lia|].
  split; [rewrite length_map; lia|].
  split; [|split].
  - rewrite <- drop_leading_defaults_nil.
    destruct (drop_leading_defaults (firstn 20 align)); simpl;
      split; congruence.
  - intros H. apply drop_leading_defaults_nil in H.
    unfold parseTable, parseTableRowsToBlocks.
    rewrite columnSettingsOf_fresh, H. reflexivity.
  - intros s rest H.
    destruct (drop_leading_defaults (firstn 20 align)) as [|a r] eqn:E;
      [discriminate|].
    apply drop_leading_defaults_head in E.
    simpl in H. injection H as <- _.
    destruct a as [[]|]; simpl in *; congruence.
Qed.

Lemma columnSettings_bounds_witness :
  parseTable Sample.env [mkCell "h" [Text "h" "h"]] []
    [Some AlignLeft; None] =
  Ok (TableBlock [[RawTextCell "h"]] None).
Proof.
  apply (proj1 (proj2 (proj2 (proj2
           (columnSettings_bounds Sample.env [mkCell "h" [Text "h" "h"]] []
              [Some AlignLeft; None]))))).
  reflexivity.
Defined.



(** X13.  The rich elements of a token list never hold a link whose URL
    the validator rejects: such a link is turned into plain text. *)
Theorem rich_elements_links_valid (env : collaborators)
    (tokens : list token) :
  forallb (link_is_valid env) (tokensToRichTextElements env tokens) = true.
Proof.
  unfold tokensToRichTextElements.
  induction tokens as [|t ts IH]; [reflexivity|].
  simpl. rewrite forallb_app, IH, andb_true_r.
  destruct t; try reflexivity. simpl.
  destruct (validateUrl env href) eqn:E; simpl; [rewrite E|]; reflexivity.
Qed.

(** X14.  Every inline token except a line break becomes exactly one rich
    element, whatever is nested inside it; a line break becomes none. *)
Theorem rich_elements_count (env : collaborators) (tokens : list token) :
  length (tokensToRichTextElements env tokens)
  = length (filter (fun t => negb (isBr t)) tokens).
Proof.
  unfold tokensToRichTextElements.
  induction tokens as [|t ts IH]; [reflexivity|].
  simpl. rewrite length_app, IH.
  destruct t; simpl; try reflexivity.
  destruct (validateUrl env href); reflexivity.
Qed.

Lemma listItemTokenElements_ignored env (t : block_token) :
  contributes_to_item t = false -> listItemTokenElements env t = [].
Proof. destruct t; try discriminate; reflexivity. Qed.

Lemma flat_map_listItem_filter env (tokens : list block_token) :
  flat_map (listItemTokenElements env) (filter contributes_to_item tokens)
  = flat_map (listItemTokenElements env) tokens.
Proof.
  induction tokens as [|t ts IH]; [reflexivity|].
  simpl. destruct (contributes_to_item t) eqn:E; simpl.
  - rewrite IH. reflexivity.
  - rewrite IH, (listItemTokenElements_ignored env t E). reflexivity.
Qed.

(** X15.  Of the child tokens of a list item only paragraphs, bare text
    and code blocks are read.  A list nested in an item, like a quote, a
    heading, a table or a rule there, leaves no trace in the list block:
    removing every such child from every item gives the same result. *)
Theorem parseList_ignores_nested_content (env : collaborators)
    (ordered : bool) (items : list (list_item block_token))
    (options : option ListOptions) (indent : nat) :
  parseList env ordered (map strip_item items) options indent =
  parseList env ordered items options indent.
Proof.
  unfold parseList. f_equal. rewrite map_map. apply map_ext.
  intros item. unfold parseListItem, strip_item. simpl.
  rewrite flat_map_listItem_filter. reflexivity.
Qed.

(** X16.  The checkbox option is consulted for task items only: on a list
    without task items every choice of options gives the same list block,
    and an item never gets a glyph unless it is a task.  For a task item
    whose [checked] field is absent the glyph is the one of an unchecked
    box. *)
Theorem parseList_checkbox_option (env : collaborators) (ordered : bool)
    (items : list (list_item block_token)) (indent : nat) :
  (existsb task items = false ->
   forall options options',
     parseList env ordered items options indent =
     parseList env ordered items options' indent) /\
  (forall prefix tokens,
     parseListItem env prefix (mkItem true None tokens) =
     parseListItem env prefix (mkItem true (Some false) tokens)) /\
  (forall prefix checked tokens,
     parseListItem env prefix (mkItem false checked tokens) =
     RichTextSection (flat_map (listItemTokenElements env) tokens)).
Proof.
  split; [|split; reflexivity].
  intros H options options'. unfold parseList. f_equal.
  apply map_ext_in. intros item Hin. unfold parseListItem.
  assert (E : task item = false).
  { destruct (task item) eqn:E; [|reflexivity].
    assert (existsb task items = true)
      by (apply existsb_exists; exists item; split; assumption).
    congruence. }
  rewrite E. reflexivity.
Qed.

Lemma parseList_checkbox_option_witness :
  parseList Sample.env false
    [mkItem false None [TextBlock "a" (Some [Text "a" "a"])]]
    (Some (mkListOptions (Some (fun _ => "[ ] ")))) 0 =
  parseList Sample.env false
    [mkItem false None [TextBlock "a" (Some [Text "a" "a"])]]
    None 0.
Proof.
  apply (proj1 (parseList_checkbox_option Sample.env false
                  [mkItem false None [TextBlock "a" (Some [Text "a" "a"])]]
                  0) eq_refl).
Defined.

(* ===================================================================== *)
(** ** Further properties: quotes *)
(* ===================================================================== *)

Lemma lines_not_nil (x : string) : lines x <> [].
Proof.
  destruct x as [|a r]; simpl; [discriminate|].
  destruct (Ascii.eqb a "010"); [discriminate|].
  destruct (lines r); discriminate.
Qed.

Lemma lines_prefix (p x : string) :
  Str.contains "010" p = false ->
  lines (p ++ x) =
  match lines x with
  | l :: ls => (p ++ l)%string :: ls
  | [] => [p]
  end.
Proof.
  induction p as [|a p IH]; intros H.
  - simpl. pose proof (lines_not_nil x) as N.
    destruct (lines x); [congruence|reflexivity].
  - unfold Str.contains in H. cbn [list_ascii_of_string existsb] in H.
    fold (Str.contains "010" p) in H.
    apply orb_false_elim in H. destruct H as [H1 H2].
    cbn [String.append lines].
    rewrite Ascii.eqb_sym, H1, (IH H2).
    destruct (lines x); reflexivity.
Qed.

Lemma lines_replace_newlines (text : string) :
  lines (Str.replace_newlines (String "010" "> ") text) =
  match lines text with
  | l :: ls => l :: map (String.append "> ") ls
  | [] => []
  end.
Proof.
  induction text as [|a t IH]; [reflexivity|].
  cbn [Str.replace_newlines lines].
  destruct (Ascii.eqb a "010") eqn:E.
  - change (lines (String "010" "> "
                   ++ Str.replace_newlines (String "010" "> ") t))
      with (EmptyString
              :: lines ("> " ++ Str.replace_newlines (String "010" "> ") t)).
    rewrite lines_prefix by reflexivity. rewrite IH.
    pose proof (lines_not_nil t) as N.
    destruct (lines t); [congruence|reflexivity].
  - cbn [lines]. rewrite E, IH.
    pose proof (lines_not_nil t) as N.
    destruct (lines t); [congruence|reflexivity].
Qed.

(** X17.  The quote formatting works line by line: the text of a quoted
    section has exactly the lines of the original text, each with the
    prefix ["> "] in front of it. *)
Theorem quoteSection_lines (text : string) :
  text <> "" ->
  exists quoted_text,
    quoteSection (SectionBlock text) = SectionBlock quoted_text /\
    lines quoted_text = map (String.append "> ") (lines text).
Proof.
  intros H. exists ("> " ++ Str.replace_newlines (String "010" "> ") text)%string.
  split.
  - destruct text; [congruence|reflexivity].
  - rewrite lines_prefix by reflexivity. rewrite lines_replace_newlines.
    pose proof (lines_not_nil text) as N.
    destruct (lines text); [congruence|reflexivity].
Qed.

Lemma quoteSection_lines_witness :
  exists quoted_text,
    quoteSection (SectionBlock (String "a" (String "010" "b")))
    = SectionBlock quoted_text /\
    lines quoted_text = ["> a"; "> b"].
Proof.
  apply (quoteSection_lines (String "a" (String "010" "b"))).
  discriminate.
Defined.

Lemma replace_newlines_app (r s1 s2 : string) :
  Str.replace_newlines r (s1 ++ s2) =
  (Str.replace_newlines r s1 ++ Str.replace_newlines r s2)%string.
Proof.
  induction s1 as [|a s IH]; [reflexivity|].
  cbn [String.append Str.replace_newlines].
  destruct (Ascii.eqb a "010"); rewrite IH;
    [rewrite append_assoc|]; reflexivity.
Qed.

Lemma replace_newlines_twice (text : string) :
  Str.replace_newlines (String "010" "> ")
    (Str.replace_newlines (String "010" "> ") text) =
  Str.replace_newlines (String "010" "> > ") text.
Proof.
  induction text as [|a t IH]; [reflexivity|].
  cbn [Str.replace_newlines]. destruct (Ascii.eqb a "010") eqn:E.
  - rewrite replace_newlines_app, IH. reflexivity.
  - cbn [Str.replace_newlines]. rewrite E, IH. reflexivity.
Qed.

(** X18.  A blockquote whose only child is a blockquote returns the blocks
    of the inner quote with the quote formatting applied once more, so that
    a section of the inner quote that was already prefixed carries the
    prefix twice: ["> > "] in front of each of its original lines. *)
Theorem nested_blockquote_doubles_prefix (env : collaborators)
    (inner : list block_token) (d : Z) :
  parseBlockquote env (Blockquote [Blockquote inner]) d =
  (match parseBlockquote env (Blockquote inner) d with
   | (Ok blocks, d') => (Ok (map quoteSection blocks), d')
   | (Throw e, d') => (Throw e, d')
   end) /\
  (forall text,
     text <> "" ->
     quoteSection (quoteSection (SectionBlock text)) =
     SectionBlock
       ("> > " ++ Str.replace_newlines (String "010" "> > ") text)).
Proof.
  split.
  - rewrite (parseBlockquote_unfold env [Blockquote inner]).
    unfold parseSimpleBlockquote.
    change (forallb isParagraphOrText [Blockquote inner]) with false.
    cbv beta iota.
    change (quoteChildBlocks env [Blockquote inner])
      with (bind (parseBlockquote env (Blockquote inner))
              (fun ys => bind (ret []) (fun zs => ret (ys ++ zs)))).
    unfold bind, ret.
    destruct (parseBlockquote env (Blockquote inner) d) as [[bs|e] d'];
      [|reflexivity].
    rewrite app_nil_r. reflexivity.
  - intros text H. destruct text as [|a t]; [congruence|].
    change (quoteSection (SectionBlock (String a t)))
      with (SectionBlock
              ("> " ++ Str.replace_newlines (String "010" "> ") (String a t))).
    change (quoteSection
              (SectionBlock
                 ("> " ++ Str.replace_newlines (String "010" "> ")
                            (String a t))))
      with (SectionBlock
              ("> " ++ Str.replace_newlines (String "010" "> ")
                         ("> " ++ Str.replace_newlines (String "010" "> ")
                                    (String a t)))).
    f_equal. rewrite replace_newlines_app, replace_newlines_twice.
    reflexivity.
Qed.

Lemma nested_blockquote_doubles_prefix_witness :
  quoteSection (quoteSection (SectionBlock (String "a" (String "010" "b")))) =
  SectionBlock ("> > a" ++ String "010" "> > b").
Proof.
  apply (proj2 (nested_blockquote_doubles_prefix Sample.env [] 0%Z)
           (String "a" (String "010" "b"))).
  discriminate.
Defined.

Lemma trialParse_text_blocks env (tokens : list block_token) (d : Z) :
  forallb isTextBlock tokens = true ->
  trialParse env tokens d = (Ok [], d).
Proof.
  intros H. unfold trialParse. induction tokens as [|t ts IH]; [reflexivity|].
  simpl in H. apply andb_prop in H. destruct H as [Ht Hts].
  destruct t; try discriminate.
  match goal with
  | |- flatMapM ?F (?t :: ts) d = _ =>
      change (flatMapM F (t :: ts) d)
        with (bind (ret []) (fun ys => bind (flatMapM F ts)
                                         (fun zs => ret (ys ++ zs))) d)
  end.
  unfold bind, ret. cbv beta iota. unfold ret in IH. rewrite (IH Hts).
  reflexivity.
Qed.

(** X19.  A blockquote whose children are all bare text tokens never
    throws, whatever the nesting of their inline tokens: it returns one
    rich-text-quote block with the rich elements of the children, or no
    block when there are none.  No section is produced for it and the
    recursion guard is never consulted. *)
Theorem blockquote_of_text_never_throws (env : collaborators)
    (tokens : list block_token) (d : Z) :
  forallb isTextBlock tokens = true ->
  parseBlockquote env (Blockquote tokens) d =
  (Ok (match quoteElementsOf env tokens with
       | [] => []
       | _ :: _ => [RichTextBlock [RichTextQuote (quoteElementsOf env tokens)]]
       end), d).
Proof.
  intros H.
  assert (Hp : forallb isParagraphOrText tokens = true).
  { apply forallb_forall. intros t Hin.
    pose proof (proj1 (forallb_forall _ _) H t Hin) as Ht.
    destruct t; try discriminate; reflexivity. }
  rewrite parseBlockquote_unfold. unfold bind at 1.
  unfold parseSimpleBlockquote. rewrite Hp. unfold bind at 1.
  rewrite (trialParse_text_blocks env tokens d H). simpl existsb.
  cbv beta iota.
  destruct (quoteElementsOf env tokens); reflexivity.
Qed.

Lemma blockquote_of_text_never_throws_witness :
  parseBlockquote Sample.env
    (Blockquote [TextBlock "deep" (Some [nested_em 200])]) 0%Z =
  (Ok [RichTextBlock [RichTextQuote [RichText "x" (Some Italic)]]], 0%Z).
Proof.
  apply (blockquote_of_text_never_throws Sample.env
           [TextBlock "deep" (Some [nested_em 200])] 0%Z).
  reflexivity.
Defined.

(* ===================================================================== *)
(** ** Further properties: embedded markup *)
(* ===================================================================== *)

Lemma map_result_throws {A B} (f : A -> result B) (l : list A) x e :
  In x l -> f x = Throw e -> exists e', map_result f l = Throw e'.
Proof.
  induction l as [|a l IH]; intros Hin Hx; [contradiction|].
  simpl. destruct Hin as [->|Hin].
  - rewrite Hx. exists e. reflexivity.
  - destruct (f a) as [y|e0]; [|exists e0; reflexivity].
    destruct (IH Hin Hx) as [e' ->]. exists e'. reflexivity.
Qed.

Lemma map_result_length {A B} (f : A -> result B) (l : list A) ys :
  map_result f l = Ok ys -> length ys = length l.
Proof.
  revert ys. induction l as [|a l IH]; intros ys H; simpl in H.
  - injection H as <-. reflexivity.
  - destruct (f a); [|discriminate].
    destruct (map_result f l) as [zs|]; [|discriminate].
    injection H as <-. simpl. rewrite (IH zs eq_refl). reflexivity.
Qed.

Lemma flat_map_option_length {A} (l : list (option A)) :
  length (flat_map option_to_list l) <= length l.
Proof.
  induction l as [|[a|] l IH]; simpl; lia.
Qed.

(** X20.  The image tags of an island stand or fall together: when the
    image builder throws for one tag whose URL validates, the island yields
    no block at all.  Its table and its videos are lost with the images,
    unlike a video whose builder throws, which is dropped alone. *)
Theorem html_image_failure_discards_island (env : collaborators)
    (raw : string) (res : xml_document (xml_table env)) (img : img_tag)
    (url : string) (e : error) (d : Z) :
  xmlParse env raw = Ok res ->
  In img (doc_img res) ->
  img_src img = Some url ->
  validateUrl env url = true ->
  image env url (attr_or (img_alt img) url) None = Throw e ->
  parseHTML env raw d = (Ok [], d).
Proof.
  intros Hp Hin Hs Hv Hb. rewrite (parseHTML_parsed env raw res d Hp).
  assert (Hi : htmlImage env img = Throw e).
  { unfold htmlImage. rewrite Hs, Hv. simpl. rewrite Hb. reflexivity. }
  destruct (map_result_throws (htmlImage env) (doc_img res) img e Hin Hi)
    as [e' He'].
  unfold htmlBlocks. rewrite He'. reflexivity.
Qed.

(** X21.  The video builder is only ever asked for a block with a
    non-empty video URL and a thumbnail URL that both validate, and with a
    non-empty title and alternative text: a video block of an island
    always comes from such a call. *)
Theorem html_video_validated (env : collaborators) (vid : video_tag)
    (b : block) :
  htmlVideo env vid = Some b ->
  video env (htmlVideoFields vid) = Ok b /\
  videoUrl (htmlVideoFields vid) <> "" /\
  validateUrl env (videoUrl (htmlVideoFields vid)) = true /\
  validateUrl env (thumbnailUrl (htmlVideoFields vid)) = true /\
  video_title (htmlVideoFields vid) <> "" /\
  altText (htmlVideoFields vid) <> "".
Proof.
  unfold htmlVideo, htmlVideoFields. simpl.
  set (videoUrl := attr_or (vid_src vid) "").
  set (posterUrl := attr_or (vid_poster vid) "").
  assert (Ht : attr_or (vid_title vid) "Video" <> "").
  { unfold attr_or, Str.or_else.
    destruct (vid_title vid) as [[|]|]; simpl; discriminate. }
  assert (Ha : attr_or (vid_alt vid) (attr_or (vid_title vid) "Video") <> "").
  { unfold attr_or at 1. unfold Str.or_else.
    destruct (vid_alt vid) as [[|]|]; simpl; try discriminate; exact Ht. }
  destruct (Str.is_empty videoUrl) eqn:E1; [discriminate|].
  destruct (validateUrl env videoUrl) eqn:E2; [|discriminate].
  simpl.
  destruct (Str.is_empty posterUrl) eqn:E3; simpl.
  - destruct (video env _) eqn:E; [|discriminate].
    intros H. injection H as <-.
    assert (Ep : Str.or_else posterUrl videoUrl = videoUrl)
      by (unfold Str.or_else; rewrite E3; reflexivity).
    rewrite Ep in *. repeat split; try assumption.
    intros C. rewrite C in E1. discriminate.
  - destruct (validateUrl env posterUrl) eqn:E4; [|discriminate]. simpl.
    destruct (video env _) eqn:E; [|discriminate].
    intros H. injection H as <-.
    assert (Ep : Str.or_else posterUrl videoUrl = posterUrl)
      by (unfold Str.or_else; rewrite E3; reflexivity).
    rewrite Ep in *. repeat split; try assumption.
    intros C. rewrite C in E1. discriminate.
Qed.

Lemma html_video_validated_witness :
  validateUrl Sample.env
    (thumbnailUrl
       (htmlVideoFields (mkVid (Some "https://example.com/v.mp4") None None None)))
  = true.
Proof.
  apply (html_video_validated Sample.env
           (mkVid (Some "https://example.com/v.mp4") None None None)
           (VideoBlock
              (mkVideo "https://example.com/v.mp4" "https://example.com/v.mp4"
                 "Video" "Video" None))).
  reflexivity.
Defined.

(** X22.  [parseHTML] never throws and never touches the store; for an
    island that parses, it returns at most one block for the table and one
    for each image and video tag. *)
Theorem parseHTML_total_and_bounded (env : collaborators) (raw : string)
    (d : Z) :
  exists blocks,
    parseHTML env raw d = (Ok blocks, d) /\
    (forall res,
       xmlParse env raw = Ok res ->
       length blocks <=
       length (option_to_list (doc_table res))
       + length (doc_img res) + length (doc_video res)).
Proof.
  destruct (xmlParse env raw) as [res|e] eqn:Ep.
  - rewrite (parseHTML_parsed env raw res d Ep).
    destruct (htmlBlocks env res) as [blocks|e] eqn:Eb.
    + exists blocks. split; [reflexivity|].
      intros res' H. injection H as <-.
      unfold htmlBlocks in Eb.
      destruct (map_result (htmlImage env) (doc_img res)) as [images|] eqn:Ei;
        [|discriminate].
      injection Eb as <-. rewrite !length_app.
      pose proof (flat_map_option_length images) as L1.
      pose proof (flat_map_option_length (map (htmlVideo env) (doc_video res)))
        as L2.
      rewrite length_map in L2.
      rewrite (map_result_length _ _ _ Ei) in L1.
      assert (L0 : length (match doc_table res with
                           | Some t => option_to_list (parseHtmlTable env t)
                           | None => []
                           end)
                   <= length (option_to_list (doc_table res))).
      { destruct (doc_table res) as [t|]; [|simpl; lia].
        destruct (parseHtmlTable env t); simpl; lia. }
      lia.
    + exists []. split; [reflexivity|]. intros. simpl. lia.
  - exists []. rewrite (parseHTML_parse_failure env raw e d Ep).
    split; [reflexivity|]. intros res H. discriminate.
Qed.

Lemma html_image_failure_discards_island_witness :
  parseHTML picky_image_env
    "<img src='https://example.com/a.png' alt='a'/>" 0%Z = (Ok [], 0%Z).
Proof.
  apply (html_image_failure_discards_island picky_image_env
           "<img src='https://example.com/a.png' alt='a'/>"
           (mkDoc None [mkImg (Some "https://example.com/a.png") (Some "a")] [])
           (mkImg (Some "https://example.com/a.png") (Some "a"))
           "https://example.com/a.png" ValidationError 0%Z);
    try reflexivity.
  left. reflexivity.
Defined.

Lemma parseHTML_total_and_bounded_witness :
  exists blocks,
    parseHTML Sample.env "<video src='https://example.com/v.mp4'/>" 0%Z
    = (Ok blocks, 0%Z) /\
    (forall res,
       xmlParse Sample.env "<video src='https://example.com/v.mp4'/>" = Ok res ->
       length blocks <=
       length (option_to_list (doc_table res))
       + length (doc_img res) + length (doc_video res)).
Proof.
  apply (parseHTML_total_and_bounded Sample.env
           "<video src='https://example.com/v.mp4'/>" 0%Z).
Defined.

(* ===================================================================== *)
(** ** Further properties: the router *)
(* ===================================================================== *)

(** X23.  The blocks of a document are the blocks of its first part
    followed by the blocks of the rest, each part parsed on its own from the
    same counter value; the document throws exactly when one of the two
    parts does, with the error of the first part if that one throws. *)
Theorem parseBlocks_app (env : collaborators)
    (tokens1 tokens2 : list block_token) (options : ParsingOptions) (d : Z) :
  parseBlocks env (tokens1 ++ tokens2) options d =
  (match fst (parseBlocks env tokens1 options d) with
   | Ok blocks1 =>
       match fst (parseBlocks env tokens2 options d) with
       | Ok blocks2 => Ok (blocks1 ++ blocks2)
       | Throw e => Throw e
       end
   | Throw e => Throw e
   end, d).
Proof.
  unfold parseBlocks. rewrite flatMapM_app.
  pose proof (keeps_parseBlocks env tokens1 options d) as K1.
  unfold parseBlocks in K1.
  destruct (flatMapM (fun token => parseToken env token options) tokens1 d)
    as [[bs|e] d1]; simpl in K1; subst d1; [|reflexivity].
  pose proof (keeps_parseBlocks env tokens2 options d) as K2.
  unfold parseBlocks in K2.
  destruct (flatMapM (fun token => parseToken env token options) tokens2 d)
    as [[cs|e] d2]; simpl in K2; subst d2; reflexivity.
Qed.

(** X24.  Space tokens and bare text tokens at the top level of a document
    are skipped without a block and without an error: removing them from
    the document changes nothing. *)
Theorem parseBlocks_skips (env : collaborators) (tokens : list block_token)
    (options : ParsingOptions) (d : Z) :
  parseBlocks env (filter (fun t => negb (isSkipped t)) tokens) options d =
  parseBlocks env tokens options d.
Proof.
  unfold parseBlocks. revert d.
  induction tokens as [|t ts IH]; intros d; [reflexivity|].
  destruct (isSkipped t) eqn:E.
  - simpl filter. rewrite E. simpl negb. cbv iota. rewrite IH.
    match goal with
    | |- _ = flatMapM ?F (t :: ts) d =>
        change (flatMapM F (t :: ts) d)
          with (bind (parseToken env t options)
                  (fun ys => bind (flatMapM F ts)
                               (fun zs => ret (ys ++ zs))) d)
    end.
    assert (S : parseToken env t options = ret [])
      by (destruct t; try discriminate; reflexivity).
    rewrite S. unfold bind, ret. cbv beta iota.
    destruct (flatMapM (fun token => parseToken env token options) ts d)
      as [[zs|e] d']; reflexivity.
  - simpl filter. rewrite E. simpl negb. cbv iota.
    match goal with
    | |- flatMapM ?F (t :: ?l) d = flatMapM ?F (t :: ts) d =>
        change (flatMapM F (t :: l) d)
          with (bind (parseToken env t options)
                  (fun ys => bind (flatMapM F l)
                               (fun zs => ret (ys ++ zs))) d);
        change (flatMapM F (t :: ts) d)
          with (bind (parseToken env t options)
                  (fun ys => bind (flatMapM F ts)
                               (fun zs => ret (ys ++ zs))) d)
    end.
    unfold bind.
    destruct (parseToken env t options d) as [[ys|e] d']; [|reflexivity].
    rewrite IH. reflexivity.
Qed.

(* ===================================================================== *)
(** ** Further properties: escaping and the quote extension *)
(* ===================================================================== *)

Lemma escapeText_app (s1 s2 : string) :
  escapeText (s1 ++ s2) = (escapeText s1 ++ escapeText s2)%string.
Proof.
  induction s1 as [|a s IH]; [reflexivity|].
  cbn [String.append escapeText]. rewrite IH, append_assoc. reflexivity.
Qed.

Lemma escapeChar_no_angle (a : ascii) :
  Str.contains "<" (escapeChar a) = false /\
  Str.contains ">" (escapeChar a) = false.
Proof.
  unfold escapeChar.
  destruct (Ascii.eqb_spec a "&"); [split; reflexivity|].
  destruct (Ascii.eqb_spec a "<"); [split; reflexivity|].
  destruct (Ascii.eqb_spec a ">"); [split; reflexivity|].
  unfold Str.contains. cbn [list_ascii_of_string existsb].
  rewrite !orb_false_r. split; apply Ascii.eqb_neq; congruence.
Qed.

(** X25.  The escaped text of an inline text token holds no [<] and no
    [>]; escaping works character by character, so that the escaped text of
    a concatenation is the concatenation of the escaped texts; and a text
    without [&], [<] and [>] is left as it is. *)
Theorem escapeText_properties (s1 s2 : string) :
  Str.contains "<" (escapeText s1) = false /\
  Str.contains ">" (escapeText s1) = false /\
  escapeText (s1 ++ s2) = (escapeText s1 ++ escapeText s2)%string /\
  (Str.contains "&" s1 = false -> Str.contains "<" s1 = false ->
   Str.contains ">" s1 = false -> escapeText s1 = s1).
Proof.
  split; [|split; [|split]].
  - induction s1 as [|a s IH]; [reflexivity|].
    cbn [escapeText]. rewrite contains_app, IH.
    rewrite (proj1 (escapeChar_no_angle a)). reflexivity.
  - induction s1 as [|a s IH]; [reflexivity|].
    cbn [escapeText]. rewrite contains_app, IH.
    rewrite (proj2 (escapeChar_no_angle a)). reflexivity.
  - apply escapeText_app.
  - induction s1 as [|a s IH]; [reflexivity|].
    unfold Str.contains. cbn [list_ascii_of_string existsb].
    fold (Str.contains "&" s). fold (Str.contains "<" s).
    fold (Str.contains ">" s).
    intros H1 H2 H3. apply orb_false_elim in H1, H2, H3.
    destruct H1 as [A1 B1], H2 as [A2 B2], H3 as [A3 B3].
    cbn [escapeText]. rewrite (IH B1 B2 B3). unfold escapeChar.
    rewrite (Ascii.eqb_sym a "&"), A1, (Ascii.eqb_sym a "<"), A2,
      (Ascii.eqb_sym a ">"), A3. reflexivity.
Qed.

Lemma escapeText_properties_witness :
  escapeText "plain text" = "plain text".
Proof.
  apply (proj2 (proj2 (proj2 (escapeText_properties "plain text" "")))) ;
    reflexivity.
Defined.

Lemma escapeChar_cases (a : ascii) :
  (a = "&"%char /\ escapeChar a = "&amp;") \/
  (a = "<"%char /\ escapeChar a = "&lt;") \/
  (a = ">"%char /\ escapeChar a = "&gt;") \/
  (a <> "&"%char /\ a <> "<"%char /\ a <> ">"%char /\
   escapeChar a = String a EmptyString).
Proof.
  unfold escapeChar.
  destruct (Ascii.eqb_spec a "&"); [left; split; [assumption|reflexivity]|].
  destruct (Ascii.eqb_spec a "<");
    [right; left; split; [assumption|reflexivity]|].
  destruct (Ascii.eqb_spec a ">");
    [right; right; left; split; [assumption|reflexivity]|].
  right; right; right. repeat split; assumption.
Qed.

(** X26.  Escaping loses nothing: two texts with the same escaped text are
    the same text. *)
Theorem escapeText_injective (s1 s2 : string) :
  escapeText s1 = escapeText s2 -> s1 = s2.
Proof.
  revert s2. induction s1 as [|a1 r1 IH]; intros s2 H.
  - destruct s2 as [|a2 r2]; [reflexivity|].
    cbn [escapeText] in H.
    destruct (escapeChar_cases a2) as [[_ E]|[[_ E]|[[_ E]|[_ [_ [_ E]]]]]];
      rewrite E in H; discriminate.
  - destruct s2 as [|a2 r2].
    + cbn [escapeText] in H.
      destruct (escapeChar_cases a1) as [[_ E]|[[_ E]|[[_ E]|[_ [_ [_ E]]]]]];
        rewrite E in H; discriminate.
    + cbn [escapeText] in H.
      destruct (escapeChar_cases a1)
        as [[A1 E1]|[[A1 E1]|[[A1 E1]|[N1 [N1' [N1'' E1]]]]]];
        destruct (escapeChar_cases a2)
          as [[A2 E2]|[[A2 E2]|[[A2 E2]|[N2 [N2' [N2'' E2]]]]]];
        rewrite E1, E2 in H; cbn [String.append] in H;
        try (subst a1 a2; try discriminate;
             f_equal; apply IH; injection H; trivial);
        try (injection H; intros; subst; congruence).
      injection H as Ha Hr. subst a2. f_equal. apply IH. exact Hr.
Qed.

Lemma escapeText_injective_witness : "a<b" = "a<b".
Proof. apply (escapeText_injective "a<b" "a<b"). reflexivity. Defined.

Lemma join_map_escapeText (srcs : list string) :
  Str.join (map escapeText srcs) = escapeText (Str.join srcs).
Proof.
  induction srcs as [|s r IH]; [reflexivity|].
  simpl. rewrite escapeText_app, <- IH. reflexivity.
Qed.

(** X27.  The text tokens the entry point's tokenizer makes are shown as
    written in a heading and escaped in a paragraph: the header block holds
    the concatenated source texts, with [&], [<] and [>] intact, and the
    section holds their escaped form. *)
Theorem inlineText_heading_and_paragraph (env : collaborators)
    (src : string) (srcs : list string) (d : Z) :
  (d + 1 <= maxDepth env)%Z ->
  parseHeading env (map inlineText (src :: srcs))
  = HeaderBlock (safeTruncate env (Str.join (src :: srcs)) 150) /\
  parseParagraph env (map inlineText (src :: srcs)) d
  = (Ok [SectionBlock (safeTruncate env (escapeText src) 3000
                       ++ escapeText (Str.join srcs))], d).
Proof.
  intros H. split.
  - unfold parseHeading, Slack.header. do 2 f_equal.
    induction (src :: srcs) as [|s r IH]; [reflexivity|].
    simpl. rewrite IH. reflexivity.
  - simpl map. rewrite parseParagraph_merges.
    + simpl spec_render. rewrite <- join_map_escapeText. do 4 f_equal.
      rewrite map_map. reflexivity.
    + constructor; [reflexivity|].
      apply Forall_forall. intros t Hin. apply in_map_iff in Hin.
      destruct Hin as [s [<- _]]. reflexivity.
    + constructor; [simpl; lia|].
      apply Forall_forall. intros t Hin. apply in_map_iff in Hin.
      destruct Hin as [s [<- _]]. simpl. lia.
Qed.

Lemma inlineText_heading_and_paragraph_witness :
  parseHeading Sample.env (map inlineText ["Special: &<> chars"])
  = HeaderBlock "Special: &<> chars" /\
  parseParagraph Sample.env (map inlineText ["a < b"; " & c"]) 0%Z
  = (Ok [SectionBlock "a &lt; b &amp; c"], 0%Z).
Proof.
  split.
  - apply (proj1 (inlineText_heading_and_paragraph Sample.env
                    "Special: &<> chars" [] 0%Z ltac:(simpl; lia))).
  - apply (proj2 (inlineText_heading_and_paragraph Sample.env
                    "a < b" [" & c"] 0%Z ltac:(simpl; lia))).
Defined.

Lemma indexOfQuote_range (src : string) :
  (-1 <= indexOfQuote src)%Z.
Proof.
  induction src as [|a r IH]; simpl; [lia|].
  destruct (Ascii.eqb a "'"); [lia|].
  destruct (Z.ltb_spec (indexOfQuote r) 0); lia.
Qed.

(** X28.  The tokenizer of the single-quote extension makes a token exactly
    when its [start] hint is position zero, that is when the source begins
    with a quote; the token consumes that one character, and its text is
    the quote itself, which the phrase renderer returns unchanged.  The
    hint is negative exactly when the source holds no quote. *)
Theorem singleQuote_tokenizer_and_hint (env : collaborators) (src : string) :
  (singleQuoteTokenizer src = Some (Text "'" "'") <-> indexOfQuote src = 0%Z) /\
  (singleQuoteTokenizer src = None <-> indexOfQuote src <> 0%Z) /\
  (indexOfQuote src = (-1)%Z <-> Str.contains "'" src = false) /\
  ((1 <= maxDepth env)%Z ->
   parseMrkdwn env (Text "'" "'") 0%Z = (Ok "'", 0%Z)).
Proof.
  assert (Z0 : forall a r, Ascii.eqb a "'" = false ->
                           indexOfQuote (String a r) <> 0%Z).
  { intros a r E. cbn [indexOfQuote]. rewrite E.
    pose proof (indexOfQuote_range r).
    destruct (Z.ltb_spec (indexOfQuote r) 0); lia. }
  split; [|split; [|split]].
  - destruct src as [|a r]; [split; discriminate|].
    cbn [singleQuoteTokenizer]. destruct (Ascii.eqb a "'") eqn:E.
    + cbn [indexOfQuote]. rewrite E. split; reflexivity.
    + split; [discriminate|]. intros H. apply Z0 in H; [contradiction|exact E].
  - destruct src as [|a r]; [split; [discriminate|reflexivity]|].
    cbn [singleQuoteTokenizer]. destruct (Ascii.eqb a "'") eqn:E.
    + cbn [indexOfQuote]. rewrite E. split; [discriminate|congruence].
    + split; [intros _; apply Z0; exact E | reflexivity].
  - induction src as [|a r IH]; [split; reflexivity|].
    unfold Str.contains. cbn [list_ascii_of_string existsb indexOfQuote].
    fold (Str.contains "'" r). rewrite (Ascii.eqb_sym "'" a).
    destruct (Ascii.eqb a "'"); [split; discriminate|].
    simpl orb. pose proof (indexOfQuote_range r).
    destruct (Z.ltb_spec (indexOfQuote r) 0).
    + split; [intros _; apply IH; lia | reflexivity].
    + split; [lia|]. intros C. apply IH in C. lia.
  - intros H. rewrite parseMrkdwn_outcome. unfold mrkdwn_outcome.
    destruct (Z.ltb_spec (maxDepth env) (0 + Z.of_nat (nesting (Text "'" "'"))));
      [simpl in *; lia | reflexivity].
Qed.

Lemma singleQuote_tokenizer_and_hint_witness :
  parseMrkdwn Sample.env (Text "'" "'") 0%Z = (Ok "'", 0%Z).
Proof.
  apply (proj2 (proj2 (proj2
           (singleQuote_tokenizer_and_hint Sample.env "'ll help")))).
  simpl. lia.
Defined.

(* ===================================================================== *)
(** ** Further properties: quotes with file links, and split paragraphs *)
(* ===================================================================== *)

Lemma flatMapM_ext_in {S A B} (f g : A -> M S (list B)) (xs : list A) :
  (forall x, In x xs -> f x = g x) ->
  forall s, flatMapM f xs s = flatMapM g xs s.
Proof.
  induction xs as [|x r IH]; intros H s; [reflexivity|].
  change (flatMapM f (x :: r) s)
    with (bind (f x) (fun ys => bind (flatMapM f r)
                                  (fun zs => ret (ys ++ zs))) s).
  change (flatMapM g (x :: r) s)
    with (bind (g x) (fun ys => bind (flatMapM g r)
                                  (fun zs => ret (ys ++ zs))) s).
  rewrite (H x (or_introl eq_refl)). unfold bind.
  destruct (g x s) as [[ys|e] s1]; [|reflexivity].
  rewrite IH; [reflexivity|].
  intros y Hy. apply H. right. exact Hy.
Qed.

Lemma quoteChildBlocks_trialParse env (tokens : list block_token) (d : Z) :
  forallb isParagraphOrText tokens = true ->
  quoteChildBlocks env tokens d = trialParse env tokens d.
Proof.
  intros H. unfold quoteChildBlocks, trialParse. apply flatMapM_ext_in.
  intros t Hin. pose proof (proj1 (forallb_forall _ _) H t Hin) as Ht.
  destruct t; try discriminate; reflexivity.
Qed.

Lemma existsb_isFileBlock_quoted (blocks : list block) :
  existsb isFileBlock (map quoteSection blocks) = existsb isFileBlock blocks.
Proof.
  induction blocks as [|b bs IH]; [reflexivity|].
  simpl. rewrite IH. f_equal.
  destruct b; try reflexivity. simpl. destruct (Str.is_empty text); reflexivity.
Qed.

(** X29.  When a blockquote of paragraphs and bare text holds a link that
    becomes a File block, the builder returns the blocks of the trial parse
    themselves, with the quote formatting applied: the File block is among
    them, and the bare text children, which the trial parse does not read,
    contribute nothing. *)
Theorem blockquote_with_file_link (env : collaborators)
    (tokens : list block_token) (d : Z) (testBlocks : list block) :
  forallb isParagraphOrText tokens = true ->
  trialParse env tokens d = (Ok testBlocks, d) ->
  existsb isFileBlock testBlocks = true ->
  parseBlockquote env (Blockquote tokens) d
  = (Ok (map quoteSection testBlocks), d) /\
  existsb isFileBlock (map quoteSection testBlocks) = true /\
  trialParse env (filter (fun t => negb (isTextBlock t)) tokens) d
  = (Ok testBlocks, d).
Proof.
  intros Hall Htrial Hfile. split; [|split].
  - rewrite parseBlockquote_unfold. unfold bind at 1.
    unfold parseSimpleBlockquote. rewrite Hall. unfold bind at 1.
    rewrite Htrial, Hfile. unfold ret at 1. cbv beta iota.
    unfold bind. rewrite quoteChildBlocks_trialParse by exact Hall.
    rewrite Htrial. reflexivity.
  - rewrite existsb_isFileBlock_quoted. exact Hfile.
  - rewrite <- Htrial. unfold trialParse. clear.
    revert d. induction tokens as [|t ts IH]; intros d; [reflexivity|].
    match goal with
    | |- _ = flatMapM ?F (t :: ts) d =>
        change (flatMapM F (t :: ts) d)
          with (bind (F t) (fun ys => bind (flatMapM F ts)
                                        (fun zs => ret (ys ++ zs))) d)
    end.
    destruct (isTextBlock t) eqn:E.
    + simpl filter. rewrite E. simpl negb. cbv iota. rewrite IH.
      destruct t; try discriminate. unfold bind, ret. cbv beta iota.
      destruct (flatMapM _ ts d) as [[zs|e] d']; reflexivity.
    + simpl filter. rewrite E. simpl negb. cbv iota.
      match goal with
      | |- flatMapM ?F (t :: ?l) d = _ =>
          change (flatMapM F (t :: l) d)
            with (bind (F t) (fun ys => bind (flatMapM F l)
                                          (fun zs => ret (ys ++ zs))) d)
      end.
      unfold bind.
      match goal with
      | |- context [match ?x with _ => _ end] =>
          destruct x as [[ys|e] d'] eqn:Ex
      end; [|reflexivity].
      rewrite IH. reflexivity.
Qed.

Lemma blockquote_with_file_link_witness :
  parseBlockquote Sample.env
    (Blockquote
       [TextBlock "lost" None;
        Paragraph [Text "see " "see ";
                   Link "https://example.com/doc.pdf" "it" [Text "it" "it"]]])
    0%Z =
  (Ok [SectionBlock "> see "; FileBlock "doc.pdf"], 0%Z).
Proof.
  apply (proj1 (blockquote_with_file_link Sample.env
           [TextBlock "lost" None;
            Paragraph [Text "see " "see ";
                       Link "https://example.com/doc.pdf" "it" [Text "it" "it"]]]
           0%Z [SectionBlock "see "; FileBlock "doc.pdf"]
           eq_refl eq_refl eq_refl)).
Defined.

Section SplitFacts.
Variable env : collaborators.

Lemma added_frame content (accumulator current : list block) :
  ends_without_section accumulator = true ->
  added env content (accumulator ++ current) =
  accumulator ++ added env content current.
Proof.
  intros H. destruct (list_snoc_cases current) as [->|[l [x ->]]].
  - rewrite app_nil_r. unfold added. simpl last_block.
    unfold ends_without_section in H.
    destruct (last_block accumulator) as [[]|]; try reflexivity.
    discriminate.
  - unfold added. rewrite app_assoc, !last_block_snoc.
    destruct x; try (rewrite <- !app_assoc; reflexivity).
    rewrite !set_last_snoc, app_assoc. reflexivity.
Qed.

(** The accumulation step behind a list that does not end with a section
    does what it does on the part of the list it has built itself. *)
Lemma parsePhrasingContent_frame t (accumulator current : list block) d :
  ends_without_section accumulator = true ->
  parsePhrasingContent env t (accumulator ++ current, d) =
  (fst (parsePhrasingContent env t (current, d)),
   (accumulator ++ fst (snd (parsePhrasingContent env t (current, d))),
    snd (snd (parsePhrasingContent env t (current, d))))).
Proof.
  intros H.
  assert (R : forall x,
             render_and_add env x (accumulator ++ current, d) =
             (fst (render_and_add env x (current, d)),
              (accumulator ++ fst (snd (render_and_add env x (current, d))),
               snd (snd (render_and_add env x (current, d)))))).
  { intros x. rewrite !render_and_add_outcome.
    destruct (mrkdwn_outcome env x d); [|reflexivity].
    rewrite !addMrkdwn_added. simpl. rewrite added_frame by exact H.
    reflexivity. }
  destruct t; try exact (R _).
  - unfold parsePhrasingContent.
    match goal with
    | |- context [if ?c then _ else _] => destruct c
    end; [|exact (R _)].
    unfold try_catch, bind, lift.
    match goal with
    | |- context [file env ?n] => destruct (file env n)
    end; [|exact (R _)].
    simpl. rewrite app_assoc. reflexivity.
  - unfold parsePhrasingContent, try_catch, bind, lift.
    match goal with
    | |- context [image env ?u ?a ?t] => destruct (image env u a t)
    end; simpl; [rewrite app_assoc|]; reflexivity.
Qed.

Lemma reduce_phrasing_frame tokens :
  forall (accumulator current : list block) d,
    ends_without_section accumulator = true ->
    reduce_phrasing env tokens (accumulator ++ current, d) =
    (fst (reduce_phrasing env tokens (current, d)),
     (accumulator ++ fst (snd (reduce_phrasing env tokens (current, d))),
      snd (snd (reduce_phrasing env tokens (current, d))))).
Proof.
  induction tokens as [|t rest IH]; intros accumulator current d H;
    [reflexivity|].
  change (reduce_phrasing env (t :: rest))
    with (bind (parsePhrasingContent env t)
            (fun _ => reduce_phrasing env rest)).
  unfold bind. rewrite parsePhrasingContent_frame by exact H.
  destruct (parsePhrasingContent env t (current, d)) as [[u|e] [c' d']];
    simpl; [apply IH; exact H | reflexivity].
Qed.

Lemma reduce_phrasing_app (xs ys : list token) (s : acc_store) :
  reduce_phrasing env (xs ++ ys) s =
  match reduce_phrasing env xs s with
  | (Ok _, s') => reduce_phrasing env ys s'
  | (Throw e, s') => (Throw e, s')
  end.
Proof.
  revert s. induction xs as [|x xs IH]; intros s; [reflexivity|].
  change (reduce_phrasing env ((x :: xs) ++ ys) s)
    with (bind (parsePhrasingContent env x)
            (fun _ => reduce_phrasing env (xs ++ ys)) s).
  change (reduce_phrasing env (x :: xs) s)
    with (bind (parsePhrasingContent env x)
            (fun _ => reduce_phrasing env xs) s).
  unfold bind.
  destruct (parsePhrasingContent env x s) as [[u|e] s1]; [apply IH|reflexivity].
Qed.

Lemma pushed_block_everywhere t b d (accumulator : list block) :
  isRendered t = false ->
  parsePhrasingContent env t ([], d) = (Ok tt, ([b], d)) ->
  isSectionBlock b = false ->
  parsePhrasingContent env t (accumulator, d) = (Ok tt, (accumulator ++ [b], d)).
Proof.
  intros Hr H Hb.
  assert (R : forall x,
             render_and_add env x ([], d) = (Ok tt, ([b], d)) -> False).
  { intros x Hx. rewrite render_and_add_outcome in Hx.
    destruct (mrkdwn_outcome env x d); [|discriminate].
    rewrite addMrkdwn_added in Hx. injection Hx as Hx. subst b.
    discriminate. }
  destruct t; try discriminate.
  - simpl in Hr. apply negb_false_iff in Hr.
    unfold parsePhrasingContent in H |- *.
    unfold fileExtensionOf, linkTextOf in Hr. rewrite Hr in H |- *.
    unfold try_catch, bind, lift in H |- *.
    match goal with
    | |- context [file env ?n] => destruct (file env n)
    end.
    + simpl in H |- *. injection H as ->. reflexivity.
    + exfalso. eapply R. exact H.
  - unfold parsePhrasingContent, try_catch, bind, lift in H |- *.
    match goal with
    | |- context [image env ?u ?a ?t] => destruct (image env u a t)
    end; simpl in H |- *; [|discriminate].
    injection H as ->. reflexivity.
Qed.

End SplitFacts.

(** X30.  An image or file block splits a paragraph in two: the blocks of
    the paragraph are the blocks of the tokens before it, then that block,
    then the blocks of the tokens after it, each side parsed on its own.
    Text on the two sides of the block is never merged. *)
Theorem parseParagraph_split (env : collaborators)
    (before after : list token) (t : token) (b : block)
    (blocks1 blocks2 : list block) (d : Z) :
  isRendered t = false ->
  parsePhrasingContent env t ([], d) = (Ok tt, ([b], d)) ->
  isSectionBlock b = false ->
  parseParagraph env before d = (Ok blocks1, d) ->
  parseParagraph env after d = (Ok blocks2, d) ->
  parseParagraph env (before ++ t :: after) d
  = (Ok (blocks1 ++ b :: blocks2), d).
Proof.
  intros Hr Ht Hb H1 H2. unfold parseParagraph in *.
  rewrite reduce_phrasing_app.
  destruct (reduce_phrasing env before ([], d)) as [[u|e] [a1 d1]];
    [|discriminate].
  injection H1 as -> ->.
  change (reduce_phrasing env (t :: after))
    with (bind (parsePhrasingContent env t)
            (fun _ => reduce_phrasing env after)).
  unfold bind.
  rewrite (pushed_block_everywhere env t b d blocks1 Hr Ht Hb).
  rewrite <- (app_nil_r (blocks1 ++ [b])).
  rewrite reduce_phrasing_frame.
  - destruct (reduce_phrasing env after ([], d)) as [[u'|e] [a2 d2]];
      [|discriminate].
    injection H2 as -> ->. simpl. rewrite <- app_assoc. reflexivity.
  - unfold ends_without_section. rewrite last_block_snoc.
    destruct b; try reflexivity. discriminate.
Qed.

Lemma parseParagraph_split_witness :
  parseParagraph Sample.env
    ([Text "a" "a"; Text "b" "b"]
     ++ Image "pic.png" None "pic" :: [Text "c" "c"; Text "d" "d"]) 0%Z
  = (Ok ([SectionBlock "ab"]
         ++ ImageBlock "pic.png" "pic" None :: [SectionBlock "cd"]), 0%Z).
Proof.
  apply (parseParagraph_split Sample.env
           [Text "a" "a"; Text "b" "b"] [Text "c" "c"; Text "d" "d"]
           (Image "pic.png" None "pic") (ImageBlock "pic.png" "pic" None)
           [SectionBlock "ab"] [SectionBlock "cd"] 0%Z);
    reflexivity.
Defined.
